(** * Password generator and strength scorer

    A shallow embedding of [generatePassword] and
    [calculatePasswordStrength] (the password utilities module that the
    [PasswordGenerator] component imports), with the properties the
    specification states about them.

    Data.  A JavaScript string is a sequence of code units; it is modelled
    as a [list ascii], a code unit being one of the 256 values below
    U+0100 (the Latin-1 range, which holds every character the module
    writes itself).  JavaScript numbers that hold lengths and scores are
    integers here ([Z]).

    Effects.  [Math.random] is the only effect.  The values it will return
    are an explicit stream of rationals, threaded through the generator by
    a small state monad. *)

From Stdlib Require Import ZArith QArith Qround List Ascii String Bool Lia.
From Stdlib Require Import Permutation.
Import ListNotations.

Local Open Scope Z_scope.
Local Open Scope bool_scope.

(** ** JavaScript strings *)

Definition jsString : Type := list ascii.

(** A string literal of the source. *)
Definition str (s : string) : jsString := list_ascii_of_string s.

(** The code unit of a character, as a number. *)
Definition code (c : ascii) : Z := Z.of_N (N_of_ascii c).

(** [lo <= c <= hi] on code units: a range [lo-hi] of a regular
    expression's character class. *)
Definition inRange (lo hi : Z) (c : ascii) : bool :=
  (lo <=? code c) && (code c <=? hi).

(** [s.length] *)
Definition strlen (s : jsString) : Z := Z.of_nat (List.length s).

(** ** The regular expressions of the source, as matchers *)

(** [/[a-z]/] on one character. *)
Definition re_lower (c : ascii) : bool := inRange 97 122 c.
(** [/[A-Z]/] on one character. *)
Definition re_upper (c : ascii) : bool := inRange 65 90 c.
(** [/\d/] on one character: the ten ASCII digits. *)
Definition re_digit (c : ascii) : bool := inRange 48 57 c.

(** The members of the class [[!@#$%^&*()_+\-=\[\]{}|;:,.<>?]], escapes
    resolved. *)
Definition re_symbol_members : jsString := str "!@#$%^&*()_+-=[]{}|;:,.<>?".

Definition mem (c : ascii) (s : jsString) : bool :=
  existsb (Ascii.eqb c) s.

Definition re_symbol (c : ascii) : bool := mem c re_symbol_members.

(** [/[a-zA-Z0-9]/] on one character; the source uses its complement,
    [/[^a-zA-Z0-9]/g]. *)
Definition re_alnum (c : ascii) : bool :=
  re_lower c || re_upper c || re_digit c.

(** [/C/.test(s)] for a one-character class [C]: some character of [s]
    is in the class. *)
Definition test_class (cls : ascii -> bool) (s : jsString) : bool :=
  existsb cls s.

(** Line terminators: LF and CR (U+2028 and U+2029 lie outside the
    modelled range).  The pattern [.] of a regular expression without
    the [s] flag matches every character but these. *)
Definition isLineTerminator (c : ascii) : bool :=
  (code c =? 10) || (code c =? 13).

Definition re_dot (c : ascii) : bool := negb (isLineTerminator c).

(** [/(.)\1{2,}/.test(s)]: at some position a character matched by [.]
    is followed by at least two more copies of itself. *)
Fixpoint test_repeats (s : jsString) : bool :=
  match s with
  | c1 :: ((c2 :: c3 :: _) as t) =>
      (re_dot c1 && Ascii.eqb c2 c1 && Ascii.eqb c3 c1) || test_repeats t
  | _ => false
  end.

(** Canonicalize of a regular expression with the [i] flag and without
    the [u] flag: the character's upper case, unless that is not a single
    code unit or maps a character from U+0080 up to one below it.  On
    a-z it gives A-Z; every other character below U+0080 is unchanged;
    a character from U+0080 up stays at U+0080 or above, so it never
    meets the canonical form of a pattern character of the source, all
    of which are ASCII, and is left as it is here. *)
Definition canonicalize (c : ascii) : ascii :=
  if re_lower c then ascii_of_N (Z.to_N (code c - 32)) else c.

(** The pattern, a literal, matches at the start of [s], characters
    compared after [canonicalize]. *)
Fixpoint matchHere_i (pat s : jsString) : bool :=
  match pat, s with
  | [], _ => true
  | _ :: _, [] => false
  | p :: pat', c :: s' =>
      Ascii.eqb (canonicalize p) (canonicalize c) && matchHere_i pat' s'
  end.

(** [/(a1|a2|...)/i.test(s)]: some alternative matches at some position. *)
Fixpoint test_alternatives_i (alts : list jsString) (s : jsString) : bool :=
  existsb (fun pat => matchHere_i pat s) alts
  || match s with
     | [] => false
     | _ :: s' => test_alternatives_i alts s'
     end.

(** The alternatives of the [hasSequences] pattern, in source order. *)
Definition sequencePatterns : list jsString :=
  map str
    ["abc"; "bcd"; "cde"; "def"; "efg"; "fgh"; "ghi"; "hij"; "ijk"; "jkl";
     "klm"; "lmn"; "mno"; "nop"; "opq"; "pqr"; "qrs"; "rst"; "stu"; "tuv";
     "uvw"; "vwx"; "wxy"; "xyz";
     "012"; "123"; "234"; "345"; "456"; "567"; "678"; "789"]%string.

(** ** String methods *)

(** [s.toLowerCase()] on one code unit below U+0100: A-Z, and the
    Latin-1 capitals U+00C0-U+00D6 and U+00D8-U+00DE, move up by 32. *)
Definition toLowerCaseChar (c : ascii) : ascii :=
  if re_upper c || inRange 192 214 c || inRange 216 222 c
  then ascii_of_N (Z.to_N (code c + 32))
  else c.

Definition toLowerCase (s : jsString) : jsString := map toLowerCaseChar s.

(** [sub] is a prefix of [s]. *)
Fixpoint startsWith (sub s : jsString) : bool :=
  match sub, s with
  | [], _ => true
  | _ :: _, [] => false
  | p :: sub', c :: s' => Ascii.eqb p c && startsWith sub' s'
  end.

(** [s.includes(sub)] *)
Fixpoint includes (s sub : jsString) : bool :=
  startsWith sub s
  || match s with
     | [] => false
     | _ :: s' => includes s' sub
     end.

(** WhiteSpace and LineTerminator code units below U+0100: TAB, LF, VT,
    FF, CR, SP and NBSP. *)
Definition isWhiteSpace (c : ascii) : bool :=
  inRange 9 13 c || (code c =? 32) || (code c =? 160).

Fixpoint trimStart (s : jsString) : jsString :=
  match s with
  | [] => []
  | c :: s' => if isWhiteSpace c then trimStart s' else s
  end.

Definition trimEnd (s : jsString) : jsString := rev (trimStart (rev s)).

(** [s.trim()] *)
Definition trim (s : jsString) : jsString := trimEnd (trimStart s).

(** [s.replace(/C/g, '')] for a one-character class [C]: the characters
    the class matches are dropped. *)
Definition replace_class_empty (cls : ascii -> bool) (s : jsString) : jsString :=
  filter (fun c => negb (cls c)) s.

(** [s.substring(0, n)]: a negative [n] counts as 0, one past the end as
    the length. *)
Definition substring0 (s : jsString) (n : Z) : jsString :=
  firstn (Z.to_nat n) s.

(** Truthiness of a string: it is not empty. *)
Definition truthy (s : jsString) : bool :=
  match s with [] => false | _ :: _ => true end.

(** ** Character sets *)

Module CHARACTER_SETS.

Definition lowercase : jsString := str "abcdefghijklmnopqrstuvwxyz".
Definition uppercase : jsString := str "ABCDEFGHIJKLMNOPQRSTUVWXYZ".
Definition numbers : jsString := str "0123456789".
Definition symbols : jsString := str "!@#$%^&*()_+-=[]{}|;:,.<>?".

End CHARACTER_SETS.

(** ** The strength scorer *)

(** The [options] object handed to both functions. *)
Record Options : Type := mkOptions {
  useLower : bool;
  useUpper : bool;
  useNumber : bool;
  useSymbol : bool
}.

Record Analysis : Type := mkAnalysis {
  a_length : Z;
  hasLower : bool;
  hasUpper : bool;
  hasNumber : bool;
  hasSymbol : bool;
  hasRepeats : bool;
  hasSequences : bool;
  (** [keyword && ...]: the empty keyword itself when the keyword is
      empty, which is falsy; the flag keeps its truth value. *)
  hasKeyword : bool;
  keywordLength : Z
}.

Inductive Strength : Type := VeryWeak | Weak | Fair | Good | Strong.

Inductive Emoji : Type := RedCircle | OrangeCircle | YellowCircle | GreenCircle.

Inductive Color : Type := danger | warning | success.

(** The text of the [strength] field. *)
Definition strengthText (t : Strength) : string :=
  match t with
  | VeryWeak => "Very Weak"
  | Weak => "Weak"
  | Fair => "Fair"
  | Good => "Good"
  | Strong => "Strong"
  end.

Record Report : Type := mkReport {
  score : Z;
  strength : Strength;
  emoji : Emoji;
  color : Color;
  analysis : Analysis
}.

Definition analyse (password keyword : jsString) : Analysis :=
  {| a_length := strlen password;
     hasLower := test_class re_lower password;
     hasUpper := test_class re_upper password;
     hasNumber := test_class re_digit password;
     hasSymbol := test_class re_symbol password;
     hasRepeats := test_repeats password;
     hasSequences := test_alternatives_i sequencePatterns password;
     hasKeyword :=
       truthy keyword && includes (toLowerCase password) (toLowerCase keyword);
     keywordLength := if truthy keyword then strlen keyword else 0 |}.

(** [if (c) score += d;] *)
Definition addIf (c : bool) (d : Z) (score : Z) : Z :=
  if c then score + d else score.

(** The score before it is clamped: the statements of the source in
    their order, from [let score = 0]. *)
Definition rawScore (a : Analysis) : Z :=
  let score := 0 in
  let score := addIf (8 <=? a_length a) 5 score in
  let score := addIf (12 <=? a_length a) 5 score in
  let score := addIf (16 <=? a_length a) 5 score in
  let score := addIf (20 <=? a_length a) 5 score in
  let score := addIf (hasLower a) 2 score in
  let score := addIf (hasUpper a) 2 score in
  let score := addIf (hasNumber a) 2 score in
  let score := addIf (hasSymbol a) 3 score in
  let score := addIf (hasKeyword a) (Z.min 3 (keywordLength a)) score in
  let score := addIf (hasRepeats a) (-3) score in
  let score := addIf (hasSequences a) (-2) score in
  let score := addIf (a_length a <? 8) (-10) score in
  score.

(** The [if (score < 10) ... else if ... else] chain: [strength],
    [emoji] and [color] for a score. *)
Definition strengthLevel (score : Z) : Strength * Emoji * Color :=
  if score <? 10 then (VeryWeak, RedCircle, danger)
  else if score <? 20 then (Weak, OrangeCircle, warning)
  else if score <? 30 then (Fair, YellowCircle, warning)
  else if score <? 40 then (Good, GreenCircle, success)
  else (Strong, GreenCircle, success).

Definition calculatePasswordStrength
    (password : jsString) (options : Options) (keyword : jsString) : Report :=
  let analysis := analyse password keyword in
  let score := rawScore analysis in
  let score := Z.max 0 (Z.min 50 score) in
  let '(strength, emoji, color) := strengthLevel score in
  mkReport score strength emoji color analysis.

(** ** Randomness *)

(** The values the coming calls of [Math.random] return, in order. *)
Definition Rand : Type := nat -> Q.

(** [Math.random] returns a number in the interval [0, 1). *)
Definition validRand (g : Rand) : Prop :=
  forall i : nat, (0 <= g i)%Q /\ (g i < 1)%Q.

(** Computations that draw random numbers. *)
Definition M (A : Type) : Type := Rand -> A * Rand.

Definition ret {A : Type} (a : A) : M A := fun g => (a, g).

Definition bind {A B : Type} (m : M A) (k : A -> M B) : M B :=
  fun g => let (a, g') := m g in k a g'.

Notation "x <- m ;; k" := (bind m (fun x => k))
  (at level 61, m at next level, right associativity).

Definition Math_random : M Q :=
  fun g => (g 0%nat, fun i => g (S i)).

Definition Math_floor (q : Q) : Z := Qfloor q.

(** [s[i]] as [password += s[i]] appends it: the character at [i], and
    the text of [undefined] when [i] is not an index of [s]. *)
Definition charAt (s : jsString) (i : Z) : jsString :=
  if i <? 0 then str "undefined"
  else match nth_error s (Z.to_nat i) with
       | Some c => [c]
       | None => str "undefined"
       end.

(** [set[Math.floor(Math.random() * set.length)]].  The product is taken
    exactly; the rounded product of the source has its floor in the same
    range of indices. *)
Definition randomChar (set : jsString) : M jsString :=
  r <- Math_random ;;
  ret (charAt set (Math_floor (r * inject_Z (strlen set)))).

(** ** The generator *)

Inductive Completion (A : Type) : Type :=
| Return (a : A)
| Throw (message : string).

Arguments Return {A} a.
Arguments Throw {A} message.

(** [charset], built by the four [if (use...) charset += ...]. *)
Definition charsetOf (options : Options) : jsString :=
  let charset := [] in
  let charset :=
    if useLower options then charset ++ CHARACTER_SETS.lowercase else charset in
  let charset :=
    if useUpper options then charset ++ CHARACTER_SETS.uppercase else charset in
  let charset :=
    if useNumber options then charset ++ CHARACTER_SETS.numbers else charset in
  let charset :=
    if useSymbol options then charset ++ CHARACTER_SETS.symbols else charset in
  charset.

(** [selectedSets], built by the four [if (use...) selectedSets.push(...)]. *)
Definition selectedSetsOf (options : Options) : list jsString :=
  let selectedSets := [] in
  let selectedSets :=
    if useLower options
    then selectedSets ++ [CHARACTER_SETS.lowercase] else selectedSets in
  let selectedSets :=
    if useUpper options
    then selectedSets ++ [CHARACTER_SETS.uppercase] else selectedSets in
  let selectedSets :=
    if useNumber options
    then selectedSets ++ [CHARACTER_SETS.numbers] else selectedSets in
  let selectedSets :=
    if useSymbol options
    then selectedSets ++ [CHARACTER_SETS.symbols] else selectedSets in
  selectedSets.

(** [processedKeyword]; [Math.floor(length / 3)] on an integer [length]
    is the floor division. *)
Definition processKeyword (length : Z) (keyword : jsString) : jsString :=
  if truthy keyword && truthy (trim keyword) then
    let processedKeyword :=
      replace_class_empty (fun c => negb (re_alnum c)) (trim keyword) in
    let maxKeywordLength := length / 3 in
    if maxKeywordLength <? strlen processedKeyword
    then substring0 processedKeyword maxKeywordLength
    else processedKeyword
  else [].

(** [selectedSets.forEach(set => { password += set[...]; })] *)
Fixpoint seedEach (selectedSets : list jsString) (password : jsString)
  : M jsString :=
  match selectedSets with
  | [] => ret password
  | set :: rest =>
      randomChar <- randomChar set ;;
      seedEach rest (password ++ randomChar)
  end.

(** The [for] loop that fills the password, [n] iterations left. *)
Fixpoint fillLoop (n : nat) (charset password : jsString) : M jsString :=
  match n with
  | O => ret password
  | S n' =>
      randomChar <- randomChar charset ;;
      fillLoop n' charset (password ++ randomChar)
  end.

(** [for (let i = password.length; i < length; i++)]: [i] goes up by one
    each time, so the body runs [length - password.length] times, and not
    at all when that is not positive. *)
Definition fill (length : Z) (charset password : jsString) : M jsString :=
  fillLoop (Z.to_nat (length - strlen password)) charset password.

(** The comparison function [() => Math.random() - 0.5]; its arguments
    are not looked at. *)
Definition comparefn (a b : ascii) : M Q :=
  r <- Math_random ;;
  ret (r - (1 # 2))%Q.

(** [Array.prototype.sort] is the engine's, not this module's.  With a
    comparison function that is not consistent, as this one, the order
    it leaves is implementation-defined; it moves the elements and makes
    no other change, so the result is a rearrangement.  The straight
    insertion sort below stands for it so that the generator can be run:

      for (i = 1; i < n; i++) {
        element = a[i];
        for (j = i - 1; j >= 0; j--) {
          tmp = a[j];
          if (comparefn(tmp, element) > 0) a[j + 1] = tmp; else break;
        }
        a[j + 1] = element;
      }

    Which rearrangement an engine returns for given draws is not
    modelled: the theorems use [shuffle_perm] only, that the result is
    a rearrangement, and where a password is evaluated on sample draws
    its arrangement is the stand-in's.
    [insertElement] is the inner loop.  The sorted prefix is held last
    element first, as the loop walks it. *)
Fixpoint insertElement (prefix : list ascii) (element : ascii)
  : M (list ascii) :=
  match prefix with
  | [] => ret [element]
  | tmp :: rest =>
      order <- comparefn tmp element ;;
      if Qlt_le_dec 0 order
      then (moved <- insertElement rest element ;; ret (tmp :: moved))
      else ret (element :: tmp :: rest)
  end.

(** The outer loop; it returns the sorted prefix, last element first. *)
Fixpoint sortLoop (prefix : list ascii) (todo : list ascii)
  : M (list ascii) :=
  match todo with
  | [] => ret prefix
  | element :: todo' =>
      prefix' <- insertElement prefix element ;;
      sortLoop prefix' todo'
  end.

Definition sort (a : list ascii) : M (list ascii) :=
  prefix <- sortLoop [] a ;;
  ret (rev prefix).

(** [password.split('').sort(() => Math.random() - 0.5).join('')]; a
    string is its list of characters, so [split] and [join] are the
    identity. *)
Definition shuffle (password : jsString) : M jsString := sort password.

(** The body of [generatePassword] from [let password = ''] up to the
    shuffle: the seeded characters, the keyword, the filling. *)
Definition assemble (length : Z) (options : Options) (keyword : jsString)
  : M jsString :=
  let charset := charsetOf options in
  let processedKeyword := processKeyword length keyword in
  let password := [] in
  password <- seedEach (selectedSetsOf options) password ;;
  let password :=
    if truthy processedKeyword then password ++ processedKeyword
    else password in
  fill length charset password.

Definition generatePassword
    (length : Z) (options : Options) (keyword : jsString)
  : M (Completion jsString) :=
  let charset := charsetOf options in
  if negb (truthy charset)
  then ret (Throw "At least one character type must be selected")
  else
    password <- assemble length options keyword ;;
    shuffled <- shuffle password ;;
    ret (Return shuffled).

(** ** The specification's reading of the scorer

    The definitions below follow the words of the specification; the
    theorems compare them with the definitions above. *)

(** The contiguous runs of [n] characters of [s], left to right. *)
Fixpoint windows (n : nat) (s : jsString) : list jsString :=
  match s with
  | [] => []
  | _ :: s' =>
      if (n <=? List.length s)%nat then firstn n s :: windows n s' else []
  end.

(** Some character of the class, given as the set of its members, is
    present. *)
Definition spec_present (members password : jsString) : bool :=
  existsb (fun c => mem c members) password.

(** Some character is repeated 3 or more times in a row: for some
    character [c] of the password, [ccc] occurs in it. *)
Definition spec_hasRepeatRun (password : jsString) : bool :=
  existsb (fun c => includes password [c; c; c]) password.

(** The same for the characters that are not line terminators. *)
Definition spec_hasRepeatRun_noLT (password : jsString) : bool :=
  existsb
    (fun c => negb (isLineTerminator c) && includes password [c; c; c])
    password.

(** The password, letters folded to lower case, contains one of the 24
    three-letter windows of the alphabet or of the 8 three-digit windows
    of the digits. *)
Definition spec_hasSequentialRun (password : jsString) : bool :=
  existsb
    (fun w => includes (toLowerCase password) w)
    (windows 3 CHARACTER_SETS.lowercase ++ windows 3 CHARACTER_SETS.numbers).

Definition points (b : bool) (n : Z) : Z := if b then n else 0.

(** The sum of the rubric, for a given reading of "a character repeats". *)
Definition spec_sum (repeatRun : jsString -> bool)
    (password keyword : jsString) : Z :=
  points (8 <=? strlen password) 5
  + points (12 <=? strlen password) 5
  + points (16 <=? strlen password) 5
  + points (20 <=? strlen password) 5
  + points (spec_present CHARACTER_SETS.lowercase password) 2
  + points (spec_present CHARACTER_SETS.uppercase password) 2
  + points (spec_present CHARACTER_SETS.numbers password) 2
  + points (spec_present CHARACTER_SETS.symbols password) 3
  + points (includes (toLowerCase password) (toLowerCase keyword))
           (Z.min 3 (strlen keyword))
  - points (repeatRun password) 3
  - points (spec_hasSequentialRun password) 2
  - points (strlen password <? 8) 10.

Definition clamp (lo hi x : Z) : Z := Z.max lo (Z.min hi x).

(** The score as the specification words it. *)
Definition spec_score (password keyword : jsString) : Z :=
  clamp 0 50 (spec_sum spec_hasRepeatRun password keyword).

(** The score with line terminators left out of the repeat penalty. *)
Definition spec_score_noLT (password keyword : jsString) : Z :=
  clamp 0 50 (spec_sum spec_hasRepeatRun_noLT password keyword).

(** The processed keyword as the specification words it: the characters
    outside [a-zA-Z0-9] removed, then at most [floor(length/3)]
    characters kept. *)
Definition spec_processedKeyword (length : Z) (keyword : jsString) : jsString :=
  firstn (Z.to_nat (length / 3)) (filter re_alnum keyword).

(** The number of enabled classes. *)
Definition enabledCount (options : Options) : Z :=
  points (useLower options) 1 + points (useUpper options) 1
  + points (useNumber options) 1 + points (useSymbol options) 1.

Definition anyEnabled (options : Options) : bool :=
  useLower options || useUpper options || useNumber options
  || useSymbol options.

(** ** Sample inputs *)

(** A source of randomness that returns 0 at every call. *)
Definition zeroRand : Rand := fun _ => 0%Q.

(** A source that alternates 3/4 and 1/4. *)
Definition altRand : Rand :=
  fun i => if Nat.even i then (3 # 4)%Q else (1 # 4)%Q.

Definition allOn : Options := mkOptions true true true true.
Definition noneOn : Options := mkOptions false false false false.
Definition lowerUpper : Options := mkOptions true true false false.
Definition lowerDigit : Options := mkOptions true false true false.

(** The line feed character. *)
Definition LF : ascii := ascii_of_nat 10.

(** The 256 code units of the model. *)
Definition allAscii : list ascii := map ascii_of_nat (seq 0 256).

(** ** The component that calls the two functions

    [PasswordGenerator] keeps [options] in its state, changes it through
    [handleOptionChange], guards the Generate button by it and shows the
    [color] of the report through [getStrengthColor]. *)

(** The keys of [options], as the checkboxes name them. *)
Inductive OptionKey : Type :=
| key_useLower
| key_useUpper
| key_useNumber
| key_useSymbol.

(** [options[key]] *)
Definition getOption (options : Options) (key : OptionKey) : bool :=
  match key with
  | key_useLower => useLower options
  | key_useUpper => useUpper options
  | key_useNumber => useNumber options
  | key_useSymbol => useSymbol options
  end.

(** [handleOptionChange]: the update
    [prev => ({ ...prev, [option]: !prev[option] })]. *)
Definition handleOptionChange (option : OptionKey) (prev : Options) : Options :=
  match option with
  | key_useLower =>
      mkOptions (negb (useLower prev)) (useUpper prev) (useNumber prev)
        (useSymbol prev)
  | key_useUpper =>
      mkOptions (useLower prev) (negb (useUpper prev)) (useNumber prev)
        (useSymbol prev)
  | key_useNumber =>
      mkOptions (useLower prev) (useUpper prev) (negb (useNumber prev))
        (useSymbol prev)
  | key_useSymbol =>
      mkOptions (useLower prev) (useUpper prev) (useNumber prev)
        (negb (useSymbol prev))
  end.

(** [Object.values(options)]: the four flags, in the order of the keys. *)
Definition Object_values (options : Options) : list bool :=
  [useLower options; useUpper options; useNumber options; useSymbol options].

(** The [disabled] attribute of the Generate button:
    [isGenerating || Object.values(options).every(v => !v)]. *)
Definition generateDisabled (isGenerating : bool) (options : Options) : bool :=
  isGenerating || forallb negb (Object_values options).

(** The text of the [color] field. *)
Definition colorText (c : Color) : string :=
  match c with
  | danger => "danger"
  | warning => "warning"
  | success => "success"
  end.

(** The object [colors] of [getStrengthColor], by its own keys. *)
Definition colors : list (string * string) :=
  [("danger", "bg-danger-500"); ("warning", "bg-warning-500");
   ("success", "bg-success-500")]%string.

Fixpoint lookup (key : string) (object : list (string * string))
  : option string :=
  match object with
  | [] => None
  | (k, v) :: rest => if String.eqb k key then Some v else lookup key rest
  end.

(** [getStrengthColor]: [colors[color] || 'bg-gray-500'], on the own
    keys of [colors]; the names an object inherits are left out. *)
Definition getStrengthColor (color : string) : string :=
  match lookup color colors with
  | Some class => if String.eqb class "" then "bg-gray-500"%string else class
  | None => "bg-gray-500"%string
  end.

(** ** Measures used in the statements *)

(** The points of the four length thresholds. *)
Definition lengthPoints (n : Z) : Z :=
  points (8 <=? n) 5 + points (12 <=? n) 5 + points (16 <=? n) 5
  + points (20 <=? n) 5.

(** The points of the enabled classes, were each present. *)
Definition classPoints (options : Options) : Z :=
  points (useLower options) 2 + points (useUpper options) 2
  + points (useNumber options) 2 + points (useSymbol options) 3.

(** Some character the generator can put in a password has the lower
    case of [c]: one of the pool, or a letter or digit, which a keyword
    may bring. *)
Definition canAppear (options : Options) (c : ascii) : bool :=
  existsb
    (fun c' => Ascii.eqb (toLowerCaseChar c') (toLowerCaseChar c))
    (charsetOf options ++ CHARACTER_SETS.lowercase
     ++ CHARACTER_SETS.uppercase ++ CHARACTER_SETS.numbers).

(** * Properties *)

(** ** Characters *)

Lemma allAscii_complete (c : ascii) : In c allAscii.
Proof.
  unfold allAscii. rewrite <- (ascii_nat_embedding c).
  apply in_map, in_seq. pose proof (nat_ascii_bounded c). lia.
Qed.

Lemma forall_ascii (P : ascii -> bool) :
  forallb P allAscii = true -> forall c, P c = true.
Proof.
  intros H c. rewrite forallb_forall in H. apply H, allAscii_complete.
Qed.

Lemma forall_ascii2 (P : ascii -> ascii -> bool) :
  forallb (fun a => forallb (P a) allAscii) allAscii = true ->
  forall a b, P a b = true.
Proof.
  intros H a b.
  apply (forall_ascii (P a)), (forall_ascii (fun a => forallb (P a) allAscii) H).
Qed.

(** A fact about every character, checked on the 256 of them. *)
Ltac by_all_ascii := apply forall_ascii; vm_compute; reflexivity.

Lemma re_lower_members (c : ascii) :
  re_lower c = mem c CHARACTER_SETS.lowercase.
Proof.
  apply Bool.eqb_prop. revert c. by_all_ascii.
Qed.

Lemma re_upper_members (c : ascii) :
  re_upper c = mem c CHARACTER_SETS.uppercase.
Proof.
  apply Bool.eqb_prop. revert c. by_all_ascii.
Qed.

Lemma re_digit_members (c : ascii) :
  re_digit c = mem c CHARACTER_SETS.numbers.
Proof.
  apply Bool.eqb_prop. revert c. by_all_ascii.
Qed.

Lemma re_symbol_members_eq (c : ascii) :
  re_symbol c = mem c CHARACTER_SETS.symbols.
Proof. reflexivity. Qed.

(** A lower-case letter or a digit of a pattern matches, case ignored,
    the characters whose lower case it is. *)
Lemma canonicalize_lower (p c : ascii) :
  re_lower p || re_digit p = true ->
  Ascii.eqb (canonicalize p) (canonicalize c) = Ascii.eqb p (toLowerCaseChar c).
Proof.
  intros H.
  assert (G : implb (re_lower p || re_digit p)
                (Bool.eqb (Ascii.eqb (canonicalize p) (canonicalize c))
                          (Ascii.eqb p (toLowerCaseChar c))) = true).
  { clear H. revert p c. apply forall_ascii2. vm_compute. reflexivity. }
  rewrite H in G. simpl in G. apply Bool.eqb_prop, G.
Qed.

Lemma alnum_not_whitespace (c : ascii) :
  re_alnum c = true -> isWhiteSpace c = false.
Proof.
  intros H.
  assert (G : implb (re_alnum c) (negb (isWhiteSpace c)) = true).
  { clear H. revert c. by_all_ascii. }
  rewrite H in G. simpl in G. now apply negb_true_iff.
Qed.

(** ** Lists and strings *)

Lemma existsb_orb {A : Type} (f g : A -> bool) (l : list A) :
  existsb (fun x => f x || g x) l = existsb f l || existsb g l.
Proof.
  induction l as [|x l IH]; simpl; [reflexivity|].
  rewrite IH. destruct (f x), (g x), (existsb f l); reflexivity.
Qed.

Lemma existsb_ext_in {A : Type} (f g : A -> bool) (l : list A) :
  (forall x, In x l -> f x = g x) -> existsb f l = existsb g l.
Proof.
  induction l as [|x l IH]; simpl; intros H; [reflexivity|].
  rewrite (H x), IH; auto.
Qed.

Lemma mem_In (c : ascii) (s : jsString) : mem c s = true <-> In c s.
Proof.
  unfold mem. rewrite existsb_exists. split.
  - intros [x [Hin Heq]]. apply Ascii.eqb_eq in Heq. now subst.
  - intros H. exists c. split; [assumption | apply Ascii.eqb_refl].
Qed.

Lemma startsWith_spec (sub s : jsString) :
  startsWith sub s = true <-> exists post, s = sub ++ post.
Proof.
  revert s. induction sub as [|p sub IH]; intros s; simpl.
  - split; [intros _; now exists s | reflexivity].
  - destruct s as [|c s].
    + split; [discriminate | intros [post H]; discriminate].
    + rewrite andb_true_iff, Ascii.eqb_eq, IH. split.
      * intros [-> [post ->]]. now exists post.
      * intros [post H]. injection H as -> ->. split; [reflexivity | now exists post].
Qed.

Lemma includes_spec (s sub : jsString) :
  includes s sub = true <-> exists pre post, s = pre ++ sub ++ post.
Proof.
  induction s as [|c s IH].
  - simpl. rewrite orb_false_r, startsWith_spec. split.
    + intros [post H]. now exists [], post.
    + intros [pre [post H]]. destruct pre; [now exists post | discriminate].
  - simpl. rewrite orb_true_iff, startsWith_spec, IH. split.
    + intros [[post H] | [pre [post H]]].
      * now exists [], post.
      * exists (c :: pre), post. now rewrite H.
    + intros [pre [post H]]. destruct pre as [|c' pre].
      * left. now exists post.
      * right. injection H as _ H. now exists pre, post.
Qed.

Lemma includes_nil (s : jsString) : includes s [] = true.
Proof. destruct s; reflexivity. Qed.

(** ** The flags of the analysis and the specification's wording *)

Lemma test_class_present (cls : ascii -> bool) (members password : jsString) :
  (forall c, cls c = mem c members) ->
  test_class cls password = spec_present members password.
Proof.
  intros H. unfold test_class, spec_present. apply existsb_ext_in. auto.
Qed.

Lemma test_repeats_spec (s : jsString) :
  test_repeats s = true <->
  exists c pre post,
    s = pre ++ [c; c; c] ++ post /\ isLineTerminator c = false.
Proof.
  induction s as [|c1 s IH].
  - simpl. split; [discriminate|].
    intros (c & pre & post & H & _). destruct pre; discriminate.
  - destruct s as [|c2 [|c3 s]].
    + simpl. split; [discriminate|].
      intros (c & pre & post & H & _). destruct pre as [|? [|]]; discriminate.
    + simpl. split; [discriminate|].
      intros (c & pre & post & H & _). destruct pre as [|? [|? [|]]]; discriminate.
    + change (test_repeats (c1 :: c2 :: c3 :: s))
        with ((re_dot c1 && Ascii.eqb c2 c1 && Ascii.eqb c3 c1)
              || test_repeats (c2 :: c3 :: s)).
      rewrite orb_true_iff, IH, !andb_true_iff, !Ascii.eqb_eq.
      unfold re_dot. rewrite negb_true_iff. split.
      * intros [[[Hd ->] ->] | (c & pre & post & H & Hd)].
        -- now exists c1, [], s.
        -- exists c, (c1 :: pre), post. split; [now rewrite H | assumption].
      * intros (c & pre & post & H & Hd). destruct pre as [|c' pre].
        -- left. simpl in H. injection H as -> -> -> _. auto.
        -- right. injection H as _ H. now exists c, pre, post.
Qed.

Lemma spec_hasRepeatRun_noLT_spec (s : jsString) :
  spec_hasRepeatRun_noLT s = true <->
  exists c pre post,
    s = pre ++ [c; c; c] ++ post /\ isLineTerminator c = false.
Proof.
  unfold spec_hasRepeatRun_noLT. rewrite existsb_exists. split.
  - intros (c & _ & H). apply andb_true_iff in H as [Hd H].
    apply includes_spec in H as (pre & post & H).
    exists c, pre, post. split; [assumption | now apply negb_true_iff].
  - intros (c & pre & post & H & Hd). exists c. split.
    + rewrite H. apply in_or_app. right. now left.
    + apply andb_true_iff. split; [now apply negb_true_iff|].
      apply includes_spec. now exists pre, post.
Qed.

Lemma hasRepeats_agrees (s : jsString) :
  test_repeats s = spec_hasRepeatRun_noLT s.
Proof.
  apply Bool.eq_iff_eq_true.
  now rewrite test_repeats_spec, spec_hasRepeatRun_noLT_spec.
Qed.

(** A pattern of lower-case letters and digits matches, case ignored,
    where it is a prefix of the lower-cased string. *)
Lemma matchHere_i_lower (pat s : jsString) :
  forallb (fun p => re_lower p || re_digit p) pat = true ->
  matchHere_i pat s = startsWith pat (toLowerCase s).
Proof.
  revert s. induction pat as [|p pat IH]; intros s H; [reflexivity|].
  simpl in H. apply andb_true_iff in H as [Hp H].
  destruct s as [|c s]; [reflexivity|].
  simpl. now rewrite canonicalize_lower, IH.
Qed.

Lemma test_alternatives_i_lower (alts : list jsString) (s : jsString) :
  forallb (forallb (fun p => re_lower p || re_digit p)) alts = true ->
  test_alternatives_i alts s
  = existsb (fun w => includes (toLowerCase s) w) alts.
Proof.
  intros H. rewrite forallb_forall in H.
  induction s as [|c s IH]; simpl.
  - rewrite orb_false_r. apply existsb_ext_in. intros pat Hin.
    rewrite orb_false_r. now apply (matchHere_i_lower pat []), H.
  - rewrite existsb_orb, IH. f_equal.
    apply existsb_ext_in. intros pat Hin.
    now apply (matchHere_i_lower pat (c :: s)), H.
Qed.

(** The alternatives of the pattern are the three-character windows of
    the alphabet and of the digits. *)
Lemma sequencePatterns_windows :
  sequencePatterns
  = windows 3 CHARACTER_SETS.lowercase ++ windows 3 CHARACTER_SETS.numbers.
Proof. reflexivity. Qed.

Lemma hasSequences_agrees (s : jsString) :
  test_alternatives_i sequencePatterns s = spec_hasSequentialRun s.
Proof.
  unfold spec_hasSequentialRun. rewrite <- sequencePatterns_windows.
  apply test_alternatives_i_lower. reflexivity.
Qed.

(** ** The scorer *)

Lemma score_clamped (password : jsString) (options : Options) (keyword : jsString) :
  score (calculatePasswordStrength password options keyword)
  = clamp 0 50 (rawScore (analyse password keyword)).
Proof.
  unfold calculatePasswordStrength.
  destruct (strengthLevel _) as [[s e] c]. reflexivity.
Qed.

Lemma strength_level (password : jsString) (options : Options) (keyword : jsString) :
  strength (calculatePasswordStrength password options keyword)
  = fst (fst (strengthLevel
                (score (calculatePasswordStrength password options keyword)))).
Proof.
  unfold calculatePasswordStrength.
  destruct (strengthLevel _) as [[s e] c] eqn:E. simpl. now rewrite E.
Qed.

Lemma analysis_analyse (password : jsString) (options : Options) (keyword : jsString) :
  analysis (calculatePasswordStrength password options keyword)
  = analyse password keyword.
Proof.
  unfold calculatePasswordStrength.
  destruct (strengthLevel _) as [[s e] c]. reflexivity.
Qed.

(** The keyword bonus does not depend on the guard [keyword && ...]: an
    empty keyword is worth no point. *)
Lemma keyword_bonus (password keyword : jsString) (score : Z) :
  addIf (hasKeyword (analyse password keyword))
        (Z.min 3 (keywordLength (analyse password keyword))) score
  = score + points (includes (toLowerCase password) (toLowerCase keyword))
                   (Z.min 3 (strlen keyword)).
Proof.
  unfold addIf, points. simpl. destruct keyword as [|c k].
  - simpl. rewrite includes_nil. unfold strlen. simpl. lia.
  - simpl truthy. simpl andb. destruct (includes _ _); lia.
Qed.

Lemma rawScore_sum (password keyword : jsString) :
  rawScore (analyse password keyword)
  = spec_sum spec_hasRepeatRun_noLT password keyword.
Proof.
  unfold rawScore. rewrite keyword_bonus.
  unfold spec_sum, analyse, a_length, hasLower, hasUpper, hasNumber,
    hasSymbol, hasRepeats, hasSequences.
  rewrite (test_class_present re_lower CHARACTER_SETS.lowercase)
    by apply re_lower_members.
  rewrite (test_class_present re_upper CHARACTER_SETS.uppercase)
    by apply re_upper_members.
  rewrite (test_class_present re_digit CHARACTER_SETS.numbers)
    by apply re_digit_members.
  rewrite (test_class_present re_symbol CHARACTER_SETS.symbols)
    by apply re_symbol_members_eq.
  rewrite hasRepeats_agrees, hasSequences_agrees.
  unfold addIf, points.
  destruct (8 <=? strlen password), (12 <=? strlen password),
    (16 <=? strlen password), (20 <=? strlen password),
    (spec_present CHARACTER_SETS.lowercase password),
    (spec_present CHARACTER_SETS.uppercase password),
    (spec_present CHARACTER_SETS.numbers password),
    (spec_present CHARACTER_SETS.symbols password),
    (spec_hasRepeatRun_noLT password), (spec_hasSequentialRun password),
    (strlen password <? 8); lia.
Qed.

(** C2, as amended: for every password and keyword the score is the sum
    of the rubric clamped to [0, 50]: 5 for each of the lengths 8, 12, 16
    and 20 reached, 2 for a lower-case letter, 2 for an upper-case letter,
    2 for a digit, 3 for a symbol of the fixed set, [min 3 keywordLength]
    when the lower-cased password contains the lower-cased keyword, less 3
    when a character that is not a line terminator occurs three times in
    a row, less 2 for a three-character window of a-z or 0-9 (case
    ignored), less 10 below length 8. *)
Theorem calculatePasswordStrength_score_rubric
    (password : jsString) (options : Options) (keyword : jsString) :
  score (calculatePasswordStrength password options keyword)
  = spec_score_noLT password keyword.
Proof.
  rewrite score_clamped, rawScore_sum. reflexivity.
Qed.

(** C2, as stated, fails on a run of line feeds: the password made of
    three line feeds and "qwertyu" scores 7 (5 for its length, 2 for its
    lower-case letters), where the rubric with the repeat penalty for any
    character gives 4. *)
Lemma score_rubric_line_feed_run :
  score (calculatePasswordStrength ([LF; LF; LF] ++ str "qwertyu") allOn []) = 7
  /\ spec_score ([LF; LF; LF] ++ str "qwertyu") [] = 4
  /\ score (calculatePasswordStrength ([LF; LF; LF] ++ str "qwertyu") allOn [])
     <> spec_score ([LF; LF; LF] ++ str "qwertyu") [].
Proof.
  repeat split; try reflexivity. vm_compute. discriminate.
Qed.

Lemma clamp_bounds (x : Z) : 0 <= clamp 0 50 x <= 50.
Proof. unfold clamp. lia. Qed.

(** C6: the score lies in [0, 50] and the label follows the half-open
    tiers: below 10 VeryWeak, from 10 below 20 Weak, from 20 below 30
    Fair, from 30 below 40 Good, from 40 Strong; the chain of the source
    sends 9, 10, 19, 20, 39 and 40 to VeryWeak, Weak, Weak, Fair, Good
    and Strong. *)
Theorem calculatePasswordStrength_tiers
    (password : jsString) (options : Options) (keyword : jsString) :
  0 <= score (calculatePasswordStrength password options keyword) <= 50
  /\ (score (calculatePasswordStrength password options keyword) < 10 ->
      strength (calculatePasswordStrength password options keyword) = VeryWeak)
  /\ (10 <= score (calculatePasswordStrength password options keyword) < 20 ->
      strength (calculatePasswordStrength password options keyword) = Weak)
  /\ (20 <= score (calculatePasswordStrength password options keyword) < 30 ->
      strength (calculatePasswordStrength password options keyword) = Fair)
  /\ (30 <= score (calculatePasswordStrength password options keyword) < 40 ->
      strength (calculatePasswordStrength password options keyword) = Good)
  /\ (40 <= score (calculatePasswordStrength password options keyword) ->
      strength (calculatePasswordStrength password options keyword) = Strong)
  /\ map (fun s => fst (fst (strengthLevel s))) [9; 10; 19; 20; 39; 40]
     = [VeryWeak; Weak; Weak; Fair; Good; Strong].
Proof.
  rewrite strength_level.
  pose proof (clamp_bounds (rawScore (analyse password keyword))) as H.
  rewrite <- (score_clamped password options keyword) in H.
  revert H.
  generalize (score (calculatePasswordStrength password options keyword)).
  intros s H.
  split; [exact H|]. clear H.
  unfold strengthLevel.
  repeat split; try reflexivity; intros H;
    destruct (s <? 10) eqn:E1; destruct (s <? 20) eqn:E2;
    destruct (s <? 30) eqn:E3; destruct (s <? 40) eqn:E4;
    simpl; try reflexivity;
    rewrite ?Z.ltb_lt, ?Z.ltb_ge in *; lia.
Qed.

(** C9: the report depends on the password and the keyword only: two
    calls that agree on them return the same report (score, label and
    flags), whatever the [options] of each.  The class flags tell what
    the password holds, not what was requested: "abcdefgh" has its
    lower-case flag set with no class enabled. *)
Theorem calculatePasswordStrength_ignores_options
    (password keyword : jsString) (options1 options2 : Options) :
  calculatePasswordStrength password options1 keyword
  = calculatePasswordStrength password options2 keyword
  /\ hasLower (analysis (calculatePasswordStrength password options1 keyword))
     = spec_present CHARACTER_SETS.lowercase password
  /\ hasUpper (analysis (calculatePasswordStrength password options1 keyword))
     = spec_present CHARACTER_SETS.uppercase password
  /\ hasNumber (analysis (calculatePasswordStrength password options1 keyword))
     = spec_present CHARACTER_SETS.numbers password
  /\ hasSymbol (analysis (calculatePasswordStrength password options1 keyword))
     = spec_present CHARACTER_SETS.symbols password
  /\ hasLower (analysis (calculatePasswordStrength (str "abcdefgh") noneOn []))
     = true.
Proof.
  split; [reflexivity|]. rewrite analysis_analyse. unfold analyse. simpl.
  split; [apply test_class_present, re_lower_members|].
  split; [apply test_class_present, re_upper_members|].
  split; [apply test_class_present, re_digit_members|].
  split; [apply test_class_present, re_symbol_members_eq|].
  reflexivity.
Qed.

(** The points of a password when no keyword is given. *)
Lemma rawScore_keyword (password keyword : jsString) :
  rawScore (analyse password keyword)
  = rawScore (analyse password [])
    + points (includes (toLowerCase password) (toLowerCase keyword))
             (Z.min 3 (strlen keyword)).
Proof.
  rewrite !rawScore_sum. unfold spec_sum.
  replace (points (includes (toLowerCase password) (toLowerCase []))
                  (Z.min 3 (strlen [])))
    with 0 by (simpl; now rewrite includes_nil).
  lia.
Qed.

(** C10: the scorer works on the keyword as it is given.  [keywordLength]
    is the length of the raw keyword, [hasKeyword] tests the lower-cased
    raw keyword against the lower-cased password, and the bonus is
    [min 3] of the raw length.  With the keyword "a!b" and the password
    "zzzzzzzza!b" the flag is set and the length is 3, where the keyword
    as generation processes it for a length of 12, "ab", is not in the
    password and has length 2. *)
Theorem calculatePasswordStrength_raw_keyword
    (password : jsString) (options : Options) (keyword : jsString) :
  keywordLength (analysis (calculatePasswordStrength password options keyword))
  = strlen keyword
  /\ hasKeyword (analysis (calculatePasswordStrength password options keyword))
     = truthy keyword
       && includes (toLowerCase password) (toLowerCase keyword)
  /\ score (calculatePasswordStrength password options keyword)
     = clamp 0 50
         (rawScore (analyse password [])
          + points (includes (toLowerCase password) (toLowerCase keyword))
                   (Z.min 3 (strlen keyword)))
  /\ analyse (str "zzzzzzzza!b") (str "a!b")
     = mkAnalysis 11 true false false true true false true 3
  /\ processKeyword 12 (str "a!b") = str "ab"
  /\ analyse (str "zzzzzzzza!b") (processKeyword 12 (str "a!b"))
     = mkAnalysis 11 true false false true true false false 2.
Proof.
  rewrite analysis_analyse, score_clamped, <- rawScore_keyword.
  repeat split; try reflexivity.
  destruct keyword; reflexivity.
Qed.

(** ** Drawing random characters *)

Lemma bind_run {A B : Type} (m : M A) (k : A -> M B) (g : Rand) :
  bind m k g = k (fst (m g)) (snd (m g)).
Proof. unfold bind. destruct (m g). reflexivity. Qed.

(** The index [Math.floor(r * n)] of a draw [r] of [0, 1) is an index of
    a string of [n > 0] characters. *)
Lemma floor_index (r : Q) (n : Z) :
  (0 <= r)%Q -> (r < 1)%Q -> 0 < n ->
  0 <= Math_floor (r * inject_Z n) < n.
Proof.
  intros H0 H1 Hn. unfold Math_floor.
  assert (Hq : (0 < inject_Z n)%Q) by (change 0%Q with (inject_Z 0); now rewrite <- Zlt_Qlt).
  split.
  - change 0 with (Qfloor 0). apply Qfloor_resp_le.
    apply Qmult_le_0_compat; [assumption | now apply Qlt_le_weak].
  - rewrite Zlt_Qlt.
    apply Qle_lt_trans with (r * inject_Z n)%Q; [apply Qfloor_le|].
    rewrite <- (Qmult_1_l (inject_Z n)) at 2.
    apply Qmult_lt_compat_r; assumption.
Qed.

Lemma charAt_in_range (s : jsString) (i : Z) :
  0 <= i < strlen s -> exists c, charAt s i = [c] /\ In c s.
Proof.
  intros [H0 H1]. unfold charAt.
  destruct (i <? 0) eqn:E; [apply Z.ltb_lt in E; lia|].
  destruct (nth_error s (Z.to_nat i)) as [c|] eqn:N.
  - exists c. split; [reflexivity | eapply nth_error_In, N].
  - apply nth_error_None in N. unfold strlen in H1. lia.
Qed.

Lemma randomChar_spec (set : jsString) (g : Rand) :
  validRand g -> set <> [] ->
  exists c, fst (randomChar set g) = [c] /\ In c set
            /\ validRand (snd (randomChar set g)).
Proof.
  intros Hg Hset. unfold randomChar. rewrite bind_run. unfold ret. simpl.
  destruct (Hg 0%nat) as [H0 H1].
  destruct (charAt_in_range set (Math_floor (g 0%nat * inject_Z (strlen set))))
    as [c [Hc Hin]].
  { apply floor_index; try assumption.
    unfold strlen. destruct set; [congruence | simpl; lia]. }
  exists c. split; [exact Hc|]. split; [exact Hin|].
  intros i. apply (Hg (S i)).
Qed.

(** One character of each set, in the order of the sets. *)
Lemma seedEach_spec (sets : list jsString) (password : jsString) (g : Rand) :
  validRand g -> Forall (fun set => set <> []) sets ->
  exists seeds,
    fst (seedEach sets password g) = password ++ seeds
    /\ Forall2 (fun c set => In c set) seeds sets
    /\ validRand (snd (seedEach sets password g)).
Proof.
  revert password g. induction sets as [|set sets IH]; intros password g Hg Hs.
  - exists []. simpl. rewrite app_nil_r. auto.
  - inversion Hs as [|? ? Hset Hs']; subst.
    simpl. rewrite bind_run.
    destruct (randomChar_spec set g Hg Hset) as [c [Hc [Hin Hg']]].
    rewrite Hc.
    destruct (IH (password ++ [c]) _ Hg' Hs') as [seeds [E [F Hg'']]].
    exists (c :: seeds). rewrite E, <- app_assoc. auto.
Qed.

Lemma fillLoop_spec (n : nat) (charset password : jsString) (g : Rand) :
  validRand g -> charset <> [] ->
  exists padding,
    fst (fillLoop n charset password g) = password ++ padding
    /\ List.length padding = n
    /\ Forall (fun c => In c charset) padding
    /\ validRand (snd (fillLoop n charset password g)).
Proof.
  intros Hg Hc. revert password g Hg.
  induction n as [|n IH]; intros password g Hg.
  - exists []. simpl. rewrite app_nil_r. auto.
  - simpl. rewrite bind_run.
    destruct (randomChar_spec charset g Hg Hc) as [c [Ec [Hin Hg']]].
    rewrite Ec.
    destruct (IH (password ++ [c]) _ Hg') as [padding [E [L [F Hg'']]]].
    exists (c :: padding). rewrite E, <- app_assoc. simpl. auto.
Qed.

(** ** The shuffle *)

Lemma insertElement_perm (prefix : list ascii) (element : ascii) (g : Rand) :
  Permutation (element :: prefix) (fst (insertElement prefix element g)).
Proof.
  revert g. induction prefix as [|tmp rest IH]; intros g; simpl.
  - apply Permutation_refl.
  - rewrite bind_run. destruct (Qlt_le_dec _ _).
    + rewrite bind_run. simpl.
      eapply perm_trans; [apply perm_swap|]. apply perm_skip, IH.
    + apply Permutation_refl.
Qed.

Lemma sortLoop_perm (todo prefix : list ascii) (g : Rand) :
  Permutation (prefix ++ todo) (fst (sortLoop prefix todo g)).
Proof.
  revert prefix g. induction todo as [|element todo IH]; intros prefix g; simpl.
  - rewrite app_nil_r. apply Permutation_refl.
  - rewrite bind_run.
    eapply perm_trans; [|apply IH].
    eapply perm_trans; [apply Permutation_sym, Permutation_middle|].
    apply (Permutation_app_tail todo (insertElement_perm prefix element g)).
Qed.

(** Whatever the draws, the shuffle returns a rearrangement. *)
Lemma shuffle_perm (password : jsString) (g : Rand) :
  Permutation password (fst (shuffle password g)).
Proof.
  unfold shuffle, sort. rewrite bind_run. unfold ret. simpl fst.
  eapply perm_trans; [apply (sortLoop_perm password [] g)|].
  apply Permutation_rev.
Qed.

(** ** The options *)

(** The sixteen settings of the four flags. *)
Ltac each_setting options := destruct options as [[] [] [] []].

(** The four character sets taken as any four strings. *)
Ltac any_sets :=
  generalize CHARACTER_SETS.lowercase, CHARACTER_SETS.uppercase,
    CHARACTER_SETS.numbers, CHARACTER_SETS.symbols;
  let L := fresh "L" in let U := fresh "U" in
  let N := fresh "N" in let S := fresh "S" in
  intros L U N S.

Lemma anyEnabled_charset (options : Options) :
  truthy (charsetOf options) = anyEnabled options.
Proof. each_setting options; reflexivity. Qed.

Lemma selectedSets_nonempty (options : Options) :
  Forall (fun set => set <> []) (selectedSetsOf options).
Proof.
  each_setting options; repeat constructor; discriminate.
Qed.

Lemma selectedSets_count (options : Options) :
  Z.of_nat (List.length (selectedSetsOf options))
  = enabledCount options.
Proof. each_setting options; reflexivity. Qed.

(** The pool is the union of the sets of the enabled classes. *)
Lemma charsetOf_union (options : Options) (c : ascii) :
  In c (charsetOf options) <->
  (useLower options = true /\ In c CHARACTER_SETS.lowercase)
  \/ (useUpper options = true /\ In c CHARACTER_SETS.uppercase)
  \/ (useNumber options = true /\ In c CHARACTER_SETS.numbers)
  \/ (useSymbol options = true /\ In c CHARACTER_SETS.symbols).
Proof.
  unfold charsetOf. any_sets.
  each_setting options; simpl; rewrite ?in_app_iff; intuition congruence.
Qed.

Lemma selectedSets_union (options : Options) (c : ascii) :
  (exists set, In set (selectedSetsOf options) /\ In c set) ->
  In c (charsetOf options).
Proof.
  rewrite charsetOf_union. unfold selectedSetsOf. any_sets.
  intros [set [Hset Hc]].
  each_setting options; simpl in *; intuition (subst; auto).
Qed.

Lemma selectedSets_enabled (options : Options) :
  (useLower options = true -> In CHARACTER_SETS.lowercase (selectedSetsOf options))
  /\ (useUpper options = true -> In CHARACTER_SETS.uppercase (selectedSetsOf options))
  /\ (useNumber options = true -> In CHARACTER_SETS.numbers (selectedSetsOf options))
  /\ (useSymbol options = true -> In CHARACTER_SETS.symbols (selectedSetsOf options)).
Proof.
  unfold selectedSetsOf. any_sets.
  each_setting options; simpl; intuition congruence.
Qed.

(** Each set has a seed among the seeds, and each seed a set. *)
Lemma seeds_cover (seeds : jsString) (sets : list jsString) :
  Forall2 (fun c set => In c set) seeds sets ->
  (forall set, In set sets -> exists c, In c seeds /\ In c set)
  /\ (forall c, In c seeds -> exists set, In set sets /\ In c set).
Proof.
  induction 1 as [|c set seeds sets Hc _ [IH1 IH2]]; split; simpl;
    try (intros ? []).
  - subst. exists c. auto.
  - destruct (IH1 _ H) as [c' [? ?]]. exists c'. auto.
  - subst. exists set. auto.
  - destruct (IH2 _ H) as [set' [? ?]]. exists set'. auto.
Qed.

(** ** The processed keyword *)

Lemma filter_alnum_trimStart (s : jsString) :
  filter re_alnum (trimStart s) = filter re_alnum s.
Proof.
  induction s as [|c s IH]; [reflexivity|]. simpl.
  destruct (isWhiteSpace c) eqn:W; [|reflexivity].
  destruct (re_alnum c) eqn:A; [|exact IH].
  apply alnum_not_whitespace in A. congruence.
Qed.

Lemma filter_alnum_trim (s : jsString) :
  filter re_alnum (trim s) = filter re_alnum s.
Proof.
  unfold trim, trimEnd.
  now rewrite filter_rev, filter_alnum_trimStart, filter_rev, rev_involutive,
    filter_alnum_trimStart.
Qed.

Lemma replace_non_alnum (s : jsString) :
  replace_class_empty (fun c => negb (re_alnum c)) s = filter re_alnum s.
Proof.
  unfold replace_class_empty. apply filter_ext. intros c. apply negb_involutive.
Qed.

Lemma processKeyword_spec (length : Z) (keyword : jsString) :
  processKeyword length keyword = spec_processedKeyword length keyword.
Proof.
  unfold processKeyword, spec_processedKeyword.
  rewrite replace_non_alnum, filter_alnum_trim.
  destruct (truthy keyword && truthy (trim keyword)) eqn:T.
  - unfold substring0. destruct (_ <? _) eqn:E; [reflexivity|].
    apply Z.ltb_ge in E. symmetry. apply firstn_all2.
    unfold strlen in E. lia.
  - rewrite <- (filter_alnum_trim keyword).
    destruct keyword as [|c k]; [now rewrite firstn_nil|].
    simpl in T. destruct (trim (c :: k)); [now rewrite firstn_nil | discriminate].
Qed.

Lemma trimStart_whitespace (s : jsString) :
  forallb isWhiteSpace s = true -> trimStart s = [].
Proof.
  induction s as [|c s IH]; [reflexivity|]. simpl.
  intros H. apply andb_true_iff in H as [-> H]. auto.
Qed.

Lemma In_firstn {A : Type} (n : nat) (l : list A) (x : A) :
  In x (firstn n l) -> In x l.
Proof.
  revert l. induction n as [|n IH]; intros [|y l]; simpl; try tauto.
  intros [H|H]; auto.
Qed.

Lemma processKeyword_alnum (length : Z) (keyword : jsString) :
  Forall (fun c => re_alnum c = true) (processKeyword length keyword).
Proof.
  rewrite processKeyword_spec. unfold spec_processedKeyword.
  apply Forall_forall. intros c H.
  apply In_firstn in H.
  apply filter_In in H. apply H.
Qed.

(** C5: the processed keyword is the raw keyword without the characters
    outside [a-zA-Z0-9], cut to at most [floor(length/3)] characters (so
    all its characters are in [a-zA-Z0-9] and there are at most
    [floor(length/3)] of them); it is empty when the raw keyword is empty
    or made of whitespace only; "ab!@12cd" with length 9 gives "ab1". *)
Theorem processKeyword_sanitized (length : Z) (keyword : jsString) :
  processKeyword length keyword
  = firstn (Z.to_nat (length / 3)) (filter re_alnum keyword)
  /\ processKeyword length keyword = spec_processedKeyword length keyword
  /\ Forall (fun c => re_alnum c = true) (processKeyword length keyword)
  /\ strlen (processKeyword length keyword) <= Z.max 0 (length / 3)
  /\ (forallb isWhiteSpace keyword = true -> processKeyword length keyword = [])
  /\ processKeyword 9 (str "ab!@12cd") = str "ab1".
Proof.
  split; [apply processKeyword_spec|].
  split; [apply processKeyword_spec|].
  split; [apply processKeyword_alnum|].
  split; [|split; [|reflexivity]].
  - rewrite processKeyword_spec. unfold spec_processedKeyword, strlen.
    pose proof (firstn_le_length (Z.to_nat (length / 3))
                  (filter re_alnum keyword)). lia.
  - intros W. unfold processKeyword.
    replace (trim keyword) with (@nil ascii).
    + now rewrite andb_false_r.
    + unfold trim. now rewrite trimStart_whitespace.
Qed.

(** ** The generator *)

Lemma assemble_spec (length : Z) (options : Options) (keyword : jsString)
    (g : Rand) :
  validRand g -> anyEnabled options = true ->
  exists seeds padding,
    fst (assemble length options keyword g)
    = seeds ++ processKeyword length keyword ++ padding
    /\ Forall2 (fun c set => In c set) seeds (selectedSetsOf options)
    /\ Forall (fun c => In c (charsetOf options)) padding
    /\ List.length padding
       = Z.to_nat (length
                   - (strlen seeds + strlen (processKeyword length keyword))).
Proof.
  intros Hg He. unfold assemble. rewrite bind_run.
  destruct (seedEach_spec (selectedSetsOf options) [] g Hg
              (selectedSets_nonempty options)) as [seeds [Es [Fs Hg']]].
  simpl in Es. rewrite Es.
  assert (Ek : (if truthy (processKeyword length keyword)
                then seeds ++ processKeyword length keyword else seeds)
               = seeds ++ processKeyword length keyword).
  { destruct (processKeyword length keyword); simpl;
      [now rewrite app_nil_r | reflexivity]. }
  rewrite Ek. unfold fill.
  assert (Hc : charsetOf options <> []).
  { rewrite <- anyEnabled_charset in He.
    destruct (charsetOf options); [discriminate | congruence]. }
  destruct (fillLoop_spec
              (Z.to_nat (length
                         - strlen (seeds ++ processKeyword length keyword)))
              (charsetOf options) (seeds ++ processKeyword length keyword)
              _ Hg' Hc) as [padding [Ep [Lp [Fp _]]]].
  exists seeds, padding. rewrite Ep, <- app_assoc.
  repeat split; try assumption.
  rewrite Lp. unfold strlen. rewrite length_app. f_equal. lia.
Qed.

(** With a class enabled, the generator returns a rearrangement of the
    seeds, the processed keyword and the filling. *)
Lemma generatePassword_structure (length : Z) (options : Options)
    (keyword : jsString) (g : Rand) :
  validRand g -> anyEnabled options = true ->
  exists seeds padding password,
    fst (generatePassword length options keyword g) = Return password
    /\ fst (assemble length options keyword g)
       = seeds ++ processKeyword length keyword ++ padding
    /\ Permutation (seeds ++ processKeyword length keyword ++ padding) password
    /\ Forall2 (fun c set => In c set) seeds (selectedSetsOf options)
    /\ Forall (fun c => In c (charsetOf options)) padding
    /\ List.length padding
       = Z.to_nat (length
                   - (strlen seeds + strlen (processKeyword length keyword))).
Proof.
  intros Hg He.
  destruct (assemble_spec length options keyword g Hg He)
    as [seeds [padding [Ea [Fs [Fp Lp]]]]].
  unfold generatePassword. rewrite anyEnabled_charset, He.
  change (negb true) with false. cbv iota.
  rewrite !bind_run. unfold ret. simpl fst.
  exists seeds, padding. eexists. split; [reflexivity|].
  split; [exact Ea|]. split; [|auto].
  rewrite <- Ea. apply shuffle_perm.
Qed.

Lemma generatePassword_throws (length : Z) (options : Options)
    (keyword : jsString) (g : Rand) :
  anyEnabled options = false ->
  generatePassword length options keyword g
  = (Throw "At least one character type must be selected", g).
Proof.
  intros He. unfold generatePassword. now rewrite anyEnabled_charset, He.
Qed.

Lemma generatePassword_returns (length : Z) (options : Options)
    (keyword : jsString) (g : Rand) :
  anyEnabled options = true ->
  exists password,
    fst (generatePassword length options keyword g) = Return password.
Proof.
  intros He. unfold generatePassword. rewrite anyEnabled_charset, He.
  change (negb true) with false. cbv iota. rewrite !bind_run. unfold ret. simpl fst.
  eexists. reflexivity.
Qed.

Lemma zeroRand_valid : validRand zeroRand.
Proof. intros i. unfold zeroRand. split; [apply Qle_refl | reflexivity]. Qed.

Lemma altRand_valid : validRand altRand.
Proof.
  intros i. unfold altRand. destruct (Nat.even i); split;
    try reflexivity; discriminate.
Qed.

(** C1: with a class enabled and a length of at least 1, whatever the
    draws, the password returned holds a character of each enabled
    class. *)
Theorem generatePassword_has_every_enabled_class
    (length : Z) (options : Options) (keyword : jsString) (g : Rand) :
  validRand g -> 1 <= length -> anyEnabled options = true ->
  exists password,
    fst (generatePassword length options keyword g) = Return password
    /\ (useLower options = true ->
        spec_present CHARACTER_SETS.lowercase password = true)
    /\ (useUpper options = true ->
        spec_present CHARACTER_SETS.uppercase password = true)
    /\ (useNumber options = true ->
        spec_present CHARACTER_SETS.numbers password = true)
    /\ (useSymbol options = true ->
        spec_present CHARACTER_SETS.symbols password = true).
Proof.
  intros Hg _ He.
  destruct (generatePassword_structure length options keyword g Hg He)
    as (seeds & padding & password & Er & _ & P & Fs & _).
  exists password. split; [exact Er|].
  assert (K : forall set, In set (selectedSetsOf options) ->
                          spec_present set password = true).
  { intros set Hset.
    destruct (proj1 (seeds_cover _ _ Fs) set Hset) as [c [Hc Hin]].
    unfold spec_present. apply existsb_exists. exists c. split.
    - apply (Permutation_in c P). apply in_or_app. now left.
    - now apply mem_In. }
  destruct (selectedSets_enabled options) as (Hl & Hu & Hn & Hs).
  repeat split; intros H; apply K; auto.
Qed.

Lemma generatePassword_has_every_enabled_class_witness :
  exists password,
    fst (generatePassword 12 lowerDigit [] altRand) = Return password
    /\ (useLower lowerDigit = true ->
        spec_present CHARACTER_SETS.lowercase password = true)
    /\ (useUpper lowerDigit = true ->
        spec_present CHARACTER_SETS.uppercase password = true)
    /\ (useNumber lowerDigit = true ->
        spec_present CHARACTER_SETS.numbers password = true)
    /\ (useSymbol lowerDigit = true ->
        spec_present CHARACTER_SETS.symbols password = true).
Proof.
  apply (generatePassword_has_every_enabled_class 12 lowerDigit [] altRand);
    [apply altRand_valid | lia | reflexivity].
Defined.

Lemma seeds_count (seeds : jsString) (options : Options) :
  Forall2 (fun c set => In c set) seeds (selectedSetsOf options) ->
  strlen seeds = enabledCount options.
Proof.
  intros F. unfold strlen. rewrite (Forall2_length F).
  apply selectedSets_count.
Qed.

(** C3, as amended: with a class enabled and a length of at least 1, the
    password returned has the larger of the requested length and the
    number of enabled classes plus the length of the processed keyword.
    It is never shorter than requested, and has the requested length
    exactly when the seeded characters and the processed keyword fit in
    it; with no keyword, from length 4 on. *)
Theorem generatePassword_length
    (length : Z) (options : Options) (keyword : jsString) (g : Rand) :
  validRand g -> 1 <= length -> anyEnabled options = true ->
  exists password,
    fst (generatePassword length options keyword g) = Return password
    /\ strlen password
       = Z.max length
           (enabledCount options + strlen (processKeyword length keyword))
    /\ length <= strlen password
    /\ (enabledCount options + strlen (processKeyword length keyword) <= length ->
        strlen password = length)
    /\ (keyword = [] -> 4 <= length -> strlen password = length).
Proof.
  intros Hg _ He.
  destruct (generatePassword_structure length options keyword g Hg He)
    as (seeds & padding & password & Er & _ & P & Fs & _ & Lp).
  exists password. split; [exact Er|].
  assert (L : strlen password
              = strlen seeds + strlen (processKeyword length keyword)
                + Z.of_nat (List.length padding)).
  { unfold strlen. rewrite <- (Permutation_length P), !length_app. lia. }
  rewrite Lp, (seeds_count _ _ Fs) in L.
  assert (B : 0 <= enabledCount options <= 4).
  { each_setting options; vm_compute; split; discriminate. }
  repeat split; try lia.
  intros -> H4. change (strlen (processKeyword length [])) with 0 in L. lia.
Qed.

Lemma generatePassword_length_witness :
  exists password,
    fst (generatePassword 12 allOn (str "ab!@12cd") altRand) = Return password
    /\ strlen password
       = Z.max 12 (enabledCount allOn
                   + strlen (processKeyword 12 (str "ab!@12cd")))
    /\ 12 <= strlen password
    /\ (enabledCount allOn + strlen (processKeyword 12 (str "ab!@12cd")) <= 12 ->
        strlen password = 12)
    /\ (str "ab!@12cd" = [] -> 4 <= 12 -> strlen password = 12).
Proof.
  apply (generatePassword_length 12 allOn (str "ab!@12cd") altRand);
    [apply altRand_valid | lia | reflexivity].
Defined.

(** C3, as stated, fails for a length below the number of enabled
    classes: with length 1, lower and upper case enabled and no keyword,
    the password returned is "aA", of length 2. *)
Lemma generatePassword_length_above_request :
  validRand zeroRand
  /\ anyEnabled lowerUpper = true
  /\ fst (generatePassword 1 lowerUpper [] zeroRand) = Return (str "aA")
  /\ strlen (str "aA") <> 1.
Proof.
  split; [apply zeroRand_valid|].
  repeat split. vm_compute. discriminate.
Qed.

(** C4: with a class enabled and a length of at least 1, whatever the
    draws, each character of the password returned is in the set of an
    enabled class or is a character of the processed keyword. *)
Theorem generatePassword_characters
    (length : Z) (options : Options) (keyword : jsString) (g : Rand) :
  validRand g -> 1 <= length -> anyEnabled options = true ->
  exists password,
    fst (generatePassword length options keyword g) = Return password
    /\ forall c, In c password ->
         (useLower options = true /\ In c CHARACTER_SETS.lowercase)
         \/ (useUpper options = true /\ In c CHARACTER_SETS.uppercase)
         \/ (useNumber options = true /\ In c CHARACTER_SETS.numbers)
         \/ (useSymbol options = true /\ In c CHARACTER_SETS.symbols)
         \/ In c (processKeyword length keyword).
Proof.
  intros Hg _ He.
  destruct (generatePassword_structure length options keyword g Hg He)
    as (seeds & padding & password & Er & _ & P & Fs & Fp & _).
  exists password. split; [exact Er|]. intros c Hc.
  apply (Permutation_in c (Permutation_sym P)) in Hc.
  assert (K : In c (charsetOf options) \/ In c (processKeyword length keyword)).
  { rewrite !in_app_iff in Hc. destruct Hc as [Hc | [Hc | Hc]].
    - left. apply selectedSets_union. apply (seeds_cover _ _ Fs), Hc.
    - now right.
    - left. rewrite Forall_forall in Fp. auto. }
  rewrite charsetOf_union in K. tauto.
Qed.

Lemma generatePassword_characters_witness :
  exists password,
    fst (generatePassword 12 lowerDigit (str "ab!@12cd") altRand)
    = Return password
    /\ forall c, In c password ->
         (useLower lowerDigit = true /\ In c CHARACTER_SETS.lowercase)
         \/ (useUpper lowerDigit = true /\ In c CHARACTER_SETS.uppercase)
         \/ (useNumber lowerDigit = true /\ In c CHARACTER_SETS.numbers)
         \/ (useSymbol lowerDigit = true /\ In c CHARACTER_SETS.symbols)
         \/ In c (processKeyword 12 (str "ab!@12cd")).
Proof.
  apply (generatePassword_characters 12 lowerDigit (str "ab!@12cd") altRand);
    [apply altRand_valid | lia | reflexivity].
Defined.

(** C7: the generator throws, with the message "At least one character
    type must be selected", exactly when no class is enabled, and returns
    a password whenever one is (length 6, no class and the keyword "x"
    throws); the scorer returns a report for every string, for the empty
    one the score 0 and the label VeryWeak. *)
Theorem generatePassword_throws_iff_no_class
    (length : Z) (options : Options) (keyword : jsString) (g : Rand) :
  (fst (generatePassword length options keyword g)
   = Throw "At least one character type must be selected"
   <-> anyEnabled options = false)
  /\ ((exists message,
         fst (generatePassword length options keyword g) = Throw message)
      <-> anyEnabled options = false)
  /\ (anyEnabled options = true ->
      exists password,
        fst (generatePassword length options keyword g) = Return password)
  /\ (forall password : jsString,
        exists report,
          calculatePasswordStrength password options keyword = report
          /\ 0 <= score report <= 50)
  /\ score (calculatePasswordStrength [] options keyword) = 0
  /\ strength (calculatePasswordStrength [] options keyword) = VeryWeak
  /\ fst (generatePassword 6 noneOn (str "x") g)
     = Throw "At least one character type must be selected".
Proof.
  assert (T : forall message,
             fst (generatePassword length options keyword g) = Throw message ->
             anyEnabled options = false).
  { intros message H. destruct (anyEnabled options) eqn:He; [|reflexivity].
    destruct (generatePassword_returns length options keyword g He) as [p Hp].
    congruence. }
  split; [|split; [|split; [|split]]].
  - split; [apply T|]. intros He.
    now rewrite (generatePassword_throws length options keyword g He).
  - split; [intros [message H]; eapply T, H|]. intros He. eexists.
    now rewrite (generatePassword_throws length options keyword g He).
  - apply generatePassword_returns.
  - intros password. eexists. split; [reflexivity|].
    rewrite score_clamped. apply clamp_bounds.
  - destruct keyword; repeat split; reflexivity.
Qed.

(** * Further properties *)

(** ** The scorer *)

Lemma rawScore_upper (password keyword : jsString) :
  rawScore (analyse password keyword) <= 32.
Proof.
  rewrite rawScore_sum. unfold spec_sum, points.
  destruct (8 <=? strlen password), (12 <=? strlen password),
    (16 <=? strlen password), (20 <=? strlen password),
    (spec_present CHARACTER_SETS.lowercase password),
    (spec_present CHARACTER_SETS.uppercase password),
    (spec_present CHARACTER_SETS.numbers password),
    (spec_present CHARACTER_SETS.symbols password),
    (includes (toLowerCase password) (toLowerCase keyword)),
    (spec_hasRepeatRun_noLT password), (spec_hasSequentialRun password),
    (strlen password <? 8); lia.
Qed.

Lemma score_upper (password : jsString) (options : Options)
    (keyword : jsString) :
  score (calculatePasswordStrength password options keyword) <= 32.
Proof.
  rewrite score_clamped. pose proof (rawScore_upper password keyword).
  unfold clamp. lia.
Qed.

(** X1: no password scores above 32 (20 for the length, 9 for the four
    classes, 3 for the keyword), so the label is never Strong and the
    upper bound 50 of the clamp is never met; 32 is reached. *)
Theorem calculatePasswordStrength_never_strong
    (password : jsString) (options : Options) (keyword : jsString) :
  score (calculatePasswordStrength password options keyword) <= 32
  /\ strength (calculatePasswordStrength password options keyword) <> Strong
  /\ score (calculatePasswordStrength password options keyword)
     = Z.max 0 (rawScore (analyse password keyword))
  /\ score (calculatePasswordStrength (str "aB3!kqmzXw7#pLrT9$eH") options
              (str "kqm")) = 32.
Proof.
  pose proof (score_upper password options keyword) as U.
  split; [exact U|]. split; [|split; [|reflexivity]].
  - rewrite strength_level. revert U.
    generalize (score (calculatePasswordStrength password options keyword)).
    intros s U. unfold strengthLevel.
    destruct (s <? 10); [discriminate|]. destruct (s <? 20); [discriminate|].
    destruct (s <? 30); [discriminate|].
    destruct (s <? 40) eqn:E; [discriminate|].
    apply Z.ltb_ge in E. lia.
  - rewrite score_clamped. pose proof (rawScore_upper password keyword).
    unfold clamp. lia.
Qed.

(** X2: a password of fewer than 8 characters scores at most 2 and is
    rated VeryWeak, in the colour [danger], whatever it holds. *)
Theorem calculatePasswordStrength_short
    (password : jsString) (options : Options) (keyword : jsString) :
  strlen password < 8 ->
  score (calculatePasswordStrength password options keyword) <= 2
  /\ strength (calculatePasswordStrength password options keyword) = VeryWeak
  /\ color (calculatePasswordStrength password options keyword) = danger.
Proof.
  intros H.
  assert (R : rawScore (analyse password keyword) <= 2).
  { rewrite rawScore_sum. unfold spec_sum, points.
    destruct (8 <=? strlen password) eqn:E8; [apply Z.leb_le in E8; lia|].
    destruct (12 <=? strlen password) eqn:E12; [apply Z.leb_le in E12; lia|].
    destruct (16 <=? strlen password) eqn:E16; [apply Z.leb_le in E16; lia|].
    destruct (20 <=? strlen password) eqn:E20; [apply Z.leb_le in E20; lia|].
    destruct (strlen password <? 8) eqn:E; [|apply Z.ltb_ge in E; lia].
    destruct (spec_present CHARACTER_SETS.lowercase password),
      (spec_present CHARACTER_SETS.uppercase password),
      (spec_present CHARACTER_SETS.numbers password),
      (spec_present CHARACTER_SETS.symbols password),
      (includes (toLowerCase password) (toLowerCase keyword)),
      (spec_hasRepeatRun_noLT password), (spec_hasSequentialRun password);
      lia. }
  assert (S : score (calculatePasswordStrength password options keyword) <= 2).
  { rewrite score_clamped. unfold clamp. lia. }
  split; [exact S|]. revert S. unfold calculatePasswordStrength.
  generalize (Z.max 0 (Z.min 50 (rawScore (analyse password keyword)))).
  intros s. unfold strengthLevel.
  destruct (s <? 10) eqn:E; [simpl; auto|].
  apply Z.ltb_ge in E. simpl score.
  destruct (s <? 20), (s <? 30), (s <? 40); simpl; lia.
Qed.

Lemma calculatePasswordStrength_short_witness :
  score (calculatePasswordStrength (str "aB3!") allOn (str "aB3")) <= 2
  /\ strength (calculatePasswordStrength (str "aB3!") allOn (str "aB3"))
     = VeryWeak
  /\ color (calculatePasswordStrength (str "aB3!") allOn (str "aB3")) = danger.
Proof.
  apply (calculatePasswordStrength_short (str "aB3!") allOn (str "aB3")).
  reflexivity.
Defined.

(** X3: giving a keyword never lowers the score and raises it by at
    most 3. *)
Theorem calculatePasswordStrength_keyword_bonus_bounds
    (password : jsString) (options : Options) (keyword : jsString) :
  score (calculatePasswordStrength password options [])
  <= score (calculatePasswordStrength password options keyword)
  <= score (calculatePasswordStrength password options []) + 3.
Proof.
  rewrite !score_clamped, (rawScore_keyword password keyword).
  unfold clamp, points, strlen.
  destruct (includes _ _); lia.
Qed.

(** X4: the keyword is matched without regard to case: two keywords of
    the same length with the same lower case give the same report. *)
Theorem calculatePasswordStrength_keyword_case
    (password : jsString) (options : Options) (keyword keyword' : jsString) :
  toLowerCase keyword = toLowerCase keyword' ->
  strlen keyword = strlen keyword' ->
  calculatePasswordStrength password options keyword
  = calculatePasswordStrength password options keyword'.
Proof.
  intros H L.
  assert (T : truthy keyword = truthy keyword').
  { unfold strlen in L.
    destruct keyword, keyword'; simpl in L; try reflexivity; lia. }
  assert (A : analyse password keyword = analyse password keyword').
  { unfold analyse. now rewrite H, T, L. }
  unfold calculatePasswordStrength. now rewrite A.
Qed.

Lemma calculatePasswordStrength_keyword_case_witness :
  calculatePasswordStrength (str "xxAbCxxxx") allOn (str "ABC")
  = calculatePasswordStrength (str "xxAbCxxxx") allOn (str "abc").
Proof.
  apply (calculatePasswordStrength_keyword_case
           (str "xxAbCxxxx") allOn (str "ABC") (str "abc"));
    reflexivity.
Defined.

(** ** The processed keyword *)

Lemma filter_all {A : Type} (f : A -> bool) (l : list A) :
  Forall (fun x => f x = true) l -> filter f l = l.
Proof.
  induction 1 as [|x l Hx _ IH]; [reflexivity|]. simpl. now rewrite Hx, IH.
Qed.

Lemma processKeyword_length (length : Z) (keyword : jsString) :
  strlen (processKeyword length keyword) <= Z.max 0 (length / 3).
Proof.
  rewrite processKeyword_spec. unfold spec_processedKeyword, strlen.
  pose proof (firstn_le_length (Z.to_nat (length / 3))
                (filter re_alnum keyword)). lia.
Qed.

(** X5: processing a keyword that is already processed changes nothing,
    and the processed keyword for a shorter password is the start of the
    one for a longer password. *)
Theorem processKeyword_idempotent (length : Z) (keyword : jsString) :
  processKeyword length (processKeyword length keyword)
  = processKeyword length keyword
  /\ forall length' : Z,
       length <= length' ->
       processKeyword length keyword
       = substring0 (processKeyword length' keyword) (length / 3).
Proof.
  split.
  - rewrite (processKeyword_spec length (processKeyword length keyword)).
    unfold spec_processedKeyword.
    rewrite (filter_all _ _ (processKeyword_alnum length keyword)).
    rewrite processKeyword_spec. unfold spec_processedKeyword.
    rewrite firstn_firstn. f_equal. lia.
  - intros length' H. rewrite !processKeyword_spec.
    unfold spec_processedKeyword, substring0.
    rewrite firstn_firstn. f_equal.
    assert (length / 3 <= length' / 3) by (apply Z.div_le_mono; lia). lia.
Qed.

(** ** The generator *)

(** What a returned password is made of. *)
Lemma generated_structure (length : Z) (options : Options)
    (keyword : jsString) (g : Rand) (password : jsString) :
  validRand g -> anyEnabled options = true ->
  fst (generatePassword length options keyword g) = Return password ->
  exists seeds padding,
    Permutation (seeds ++ processKeyword length keyword ++ padding) password
    /\ Forall2 (fun c set => In c set) seeds (selectedSetsOf options)
    /\ Forall (fun c => In c (charsetOf options)) padding
    /\ List.length padding
       = Z.to_nat (length
                   - (strlen seeds + strlen (processKeyword length keyword))).
Proof.
  intros Hg He Er.
  destruct (generatePassword_structure length options keyword g Hg He)
    as (seeds & padding & password' & Er' & _ & P & Fs & Fp & Lp).
  rewrite Er in Er'. injection Er' as <-.
  exists seeds, padding. auto.
Qed.

Lemma generated_strlen (length : Z) (options : Options)
    (keyword : jsString) (g : Rand) (password : jsString) :
  validRand g -> anyEnabled options = true ->
  fst (generatePassword length options keyword g) = Return password ->
  strlen password
  = Z.max length
      (enabledCount options + strlen (processKeyword length keyword)).
Proof.
  intros Hg He Er.
  destruct (generated_structure length options keyword g password Hg He Er)
    as (seeds & padding & P & Fs & _ & Lp).
  assert (L : strlen password
              = strlen seeds + strlen (processKeyword length keyword)
                + Z.of_nat (List.length padding)).
  { unfold strlen. rewrite <- (Permutation_length P), !length_app. lia. }
  rewrite Lp, (seeds_count _ _ Fs) in L. lia.
Qed.

Lemma enabledCount_bounds (options : Options) :
  anyEnabled options = true -> 1 <= enabledCount options <= 4.
Proof.
  each_setting options; vm_compute; intros H; try discriminate H;
    split; discriminate.
Qed.



(** X7: from length 5 on the password has exactly the requested length,
    whatever the classes and the keyword.  At length 4, the least the
    slider gives, four classes and a keyword make 5 characters. *)
Theorem generatePassword_exact_length
    (length : Z) (options : Options) (keyword : jsString) (g : Rand) :
  validRand g -> anyEnabled options = true -> 5 <= length ->
  exists password,
    fst (generatePassword length options keyword g) = Return password
    /\ strlen password = length
    /\ exists password4,
         fst (generatePassword 4 allOn (str "k") g) = Return password4
         /\ strlen password4 = 5.
Proof.
  intros Hg He H5.
  destruct (generatePassword_returns length options keyword g He) as [pw Er].
  exists pw. split; [exact Er|]. split.
  - rewrite (generated_strlen length options keyword g pw Hg He Er).
    pose proof (enabledCount_bounds options He).
    pose proof (processKeyword_length length keyword).
    pose proof (Z.div_mod length 3). pose proof (Z.mod_pos_bound length 3).
    lia.
  - destruct (generatePassword_returns 4 allOn (str "k") g eq_refl)
      as [pw4 Er4].
    exists pw4. split; [exact Er4|].
    now rewrite (generated_strlen 4 allOn (str "k") g pw4 Hg eq_refl Er4).
Qed.

Lemma generatePassword_exact_length_witness :
  exists password,
    fst (generatePassword 16 allOn (str "ab!@12cd") altRand) = Return password
    /\ strlen password = 16
    /\ exists password4,
         fst (generatePassword 4 allOn (str "k") altRand) = Return password4
         /\ strlen password4 = 5.
Proof.
  apply (generatePassword_exact_length 16 allOn (str "ab!@12cd") altRand);
    [apply altRand_valid | reflexivity | lia].
Defined.

(** ** A generated password under the scorer *)

Lemma classes_disjoint (c : ascii) :
  (mem c CHARACTER_SETS.lowercase
   && (mem c CHARACTER_SETS.uppercase || mem c CHARACTER_SETS.numbers
       || mem c CHARACTER_SETS.symbols))
  || (mem c CHARACTER_SETS.uppercase
      && (mem c CHARACTER_SETS.numbers || mem c CHARACTER_SETS.symbols))
  || (mem c CHARACTER_SETS.numbers && mem c CHARACTER_SETS.symbols)
  = false.
Proof.
  apply negb_true_iff. revert c. by_all_ascii.
Qed.

(** A character of the pool that is in the set of a class shows that
    the class is enabled. *)
Lemma pool_class (options : Options) (c : ascii) :
  In c (charsetOf options) ->
  (mem c CHARACTER_SETS.lowercase = true -> useLower options = true)
  /\ (mem c CHARACTER_SETS.uppercase = true -> useUpper options = true)
  /\ (mem c CHARACTER_SETS.numbers = true -> useNumber options = true)
  /\ (mem c CHARACTER_SETS.symbols = true -> useSymbol options = true).
Proof.
  rewrite charsetOf_union, <- !mem_In. pose proof (classes_disjoint c) as D.
  destruct (mem c CHARACTER_SETS.lowercase), (mem c CHARACTER_SETS.uppercase),
    (mem c CHARACTER_SETS.numbers), (mem c CHARACTER_SETS.symbols);
    simpl in D; try discriminate D; intuition congruence.
Qed.

Lemma generated_chars (length : Z) (options : Options)
    (keyword : jsString) (g : Rand) (password : jsString) :
  validRand g -> anyEnabled options = true ->
  fst (generatePassword length options keyword g) = Return password ->
  forall c, In c password ->
    In c (charsetOf options) \/ In c (processKeyword length keyword).
Proof.
  intros Hg He Er c Hc.
  destruct (generated_structure length options keyword g password Hg He Er)
    as (seeds & padding & P & Fs & Fp & _).
  apply (Permutation_in c (Permutation_sym P)) in Hc.
  rewrite !in_app_iff in Hc. destruct Hc as [Hc | [Hc | Hc]].
  - left. apply selectedSets_union. apply (seeds_cover _ _ Fs), Hc.
  - now right.
  - left. rewrite Forall_forall in Fp. auto.
Qed.

(** A class is present in a generated password when it is enabled or the
    processed keyword brings it. *)
Lemma generated_present (members : jsString) (use : bool)
    (length : Z) (options : Options) (keyword : jsString) (g : Rand)
    (password : jsString) :
  validRand g -> anyEnabled options = true ->
  fst (generatePassword length options keyword g) = Return password ->
  (use = true -> In members (selectedSetsOf options)) ->
  (forall c, In c (charsetOf options) -> mem c members = true -> use = true) ->
  spec_present members password
  = use || spec_present members (processKeyword length keyword).
Proof.
  intros Hg He Er Hsel Hpool.
  destruct (generated_structure length options keyword g password Hg He Er)
    as (seeds & padding & P & Fs & _ & _).
  apply Bool.eq_iff_eq_true. rewrite orb_true_iff.
  unfold spec_present. rewrite !existsb_exists. split.
  - intros [c [Hc Hm]].
    destruct (generated_chars length options keyword g password Hg He Er c Hc)
      as [Hp | Hk].
    + left. now apply (Hpool c).
    + right. now exists c.
  - intros [Hu | [c [Hc Hm]]].
    + destruct (proj1 (seeds_cover _ _ Fs) members (Hsel Hu)) as [c [Hc Hin]].
      exists c. split; [|now apply mem_In].
      apply (Permutation_in c P), in_or_app. now left.
    + exists c. split; [|exact Hm].
      apply (Permutation_in c P), in_or_app. right.
      apply in_or_app. now left.
Qed.

Lemma alnum_not_symbol (c : ascii) :
  re_alnum c = true -> mem c CHARACTER_SETS.symbols = false.
Proof.
  intros H.
  assert (G : implb (re_alnum c) (negb (mem c CHARACTER_SETS.symbols)) = true).
  { clear H. revert c. by_all_ascii. }
  rewrite H in G. simpl in G. now apply negb_true_iff.
Qed.

Lemma processKeyword_no_symbol (length : Z) (keyword : jsString) :
  spec_present CHARACTER_SETS.symbols (processKeyword length keyword) = false.
Proof.
  apply not_true_is_false. unfold spec_present. intros H.
  apply existsb_exists in H as [c [Hc Hm]].
  pose proof (processKeyword_alnum length keyword) as F.
  rewrite Forall_forall in F.
  rewrite (alnum_not_symbol c (F c Hc)) in Hm. discriminate.
Qed.

Lemma points_bounds (b : bool) (n : Z) :
  0 <= n -> 0 <= points b n <= n.
Proof. unfold points. destruct b; lia. Qed.

Lemma points_orb_le (a b : bool) (n : Z) :
  0 <= n -> points a n <= points (a || b) n.
Proof. unfold points. destruct a, b; simpl; lia. Qed.

(** The class flags of a generated password. *)
Lemma generated_flags (length : Z) (options : Options)
    (keyword : jsString) (g : Rand) (password : jsString) :
  validRand g -> anyEnabled options = true ->
  fst (generatePassword length options keyword g) = Return password ->
  spec_present CHARACTER_SETS.lowercase password
  = useLower options
    || spec_present CHARACTER_SETS.lowercase (processKeyword length keyword)
  /\ spec_present CHARACTER_SETS.uppercase password
     = useUpper options
       || spec_present CHARACTER_SETS.uppercase (processKeyword length keyword)
  /\ spec_present CHARACTER_SETS.numbers password
     = useNumber options
       || spec_present CHARACTER_SETS.numbers (processKeyword length keyword)
  /\ spec_present CHARACTER_SETS.symbols password = useSymbol options.
Proof.
  intros Hg He Er.
  destruct (selectedSets_enabled options) as (Hl & Hu & Hn & Hs).
  repeat split.
  - apply (generated_present _ _ length options keyword g); auto.
    intros c Hc. apply (pool_class options c Hc).
  - apply (generated_present _ _ length options keyword g); auto.
    intros c Hc. apply (pool_class options c Hc).
  - apply (generated_present _ _ length options keyword g); auto.
    intros c Hc. apply (pool_class options c Hc).
  - rewrite <- (orb_false_r (useSymbol options)),
      <- (processKeyword_no_symbol length keyword).
    apply (generated_present _ _ length options keyword g); auto.
    intros c Hc. apply (pool_class options c Hc).
Qed.

(** X8: in the analysis of a generated password, however it is scored,
    the flag of a class is set exactly when the class was enabled or the
    processed keyword holds a character of it; [hasSymbol] is set exactly
    when symbols were enabled. *)
Theorem generated_password_flags
    (length : Z) (options : Options) (keyword : jsString) (g : Rand) :
  validRand g -> anyEnabled options = true ->
  exists password,
    fst (generatePassword length options keyword g) = Return password
    /\ forall (options' : Options) (keyword' : jsString),
         hasLower (analysis (calculatePasswordStrength password options' keyword'))
         = useLower options
           || test_class re_lower (processKeyword length keyword)
         /\ hasUpper (analysis (calculatePasswordStrength password options' keyword'))
            = useUpper options
              || test_class re_upper (processKeyword length keyword)
         /\ hasNumber (analysis (calculatePasswordStrength password options' keyword'))
            = useNumber options
              || test_class re_digit (processKeyword length keyword)
         /\ hasSymbol (analysis (calculatePasswordStrength password options' keyword'))
            = useSymbol options.
Proof.
  intros Hg He.
  destruct (generatePassword_returns length options keyword g He) as [pw Er].
  exists pw. split; [exact Er|]. intros options' keyword'.
  destruct (generated_flags length options keyword g pw Hg He Er)
    as (Fl & Fu & Fn & Fs).
  rewrite analysis_analyse. unfold analyse. simpl.
  rewrite !(test_class_present re_lower CHARACTER_SETS.lowercase)
    by apply re_lower_members.
  rewrite !(test_class_present re_upper CHARACTER_SETS.uppercase)
    by apply re_upper_members.
  rewrite !(test_class_present re_digit CHARACTER_SETS.numbers)
    by apply re_digit_members.
  rewrite !(test_class_present re_symbol CHARACTER_SETS.symbols)
    by apply re_symbol_members_eq.
  auto.
Qed.

Lemma generated_password_flags_witness :
  exists password,
    fst (generatePassword 12 lowerDigit (str "Ab") altRand) = Return password
    /\ forall (options' : Options) (keyword' : jsString),
         hasLower (analysis (calculatePasswordStrength password options' keyword'))
         = useLower lowerDigit
           || test_class re_lower (processKeyword 12 (str "Ab"))
         /\ hasUpper (analysis (calculatePasswordStrength password options' keyword'))
            = useUpper lowerDigit
              || test_class re_upper (processKeyword 12 (str "Ab"))
         /\ hasNumber (analysis (calculatePasswordStrength password options' keyword'))
            = useNumber lowerDigit
              || test_class re_digit (processKeyword 12 (str "Ab"))
         /\ hasSymbol (analysis (calculatePasswordStrength password options' keyword'))
            = useSymbol lowerDigit.
Proof.
  apply (generated_password_flags 12 lowerDigit (str "Ab") altRand);
    [apply altRand_valid | reflexivity].
Defined.

(** X9: a password generated for a length of 8 or more, scored with the
    same options and keyword, has at least the points of the length and
    of the enabled classes less the two penalties, 5; with the settings
    the component starts with (length 16, letters and digits) that is
    16. *)
Theorem generated_password_score
    (length : Z) (options : Options) (keyword : jsString) (g : Rand) :
  validRand g -> anyEnabled options = true -> 8 <= length ->
  exists password,
    fst (generatePassword length options keyword g) = Return password
    /\ lengthPoints length + classPoints options - 5
       <= score (calculatePasswordStrength password options keyword)
       <= 32.
Proof.
  intros Hg He H8.
  destruct (generatePassword_returns length options keyword g He) as [pw Er].
  exists pw. split; [exact Er|]. split; [|apply score_upper].
  destruct (generated_flags length options keyword g pw Hg He Er)
    as (Fl & Fu & Fn & Fs).
  assert (L : strlen pw = length).
  { rewrite (generated_strlen length options keyword g pw Hg He Er).
    pose proof (enabledCount_bounds options He).
    pose proof (processKeyword_length length keyword).
    pose proof (Z.div_mod length 3). pose proof (Z.mod_pos_bound length 3).
    lia. }
  rewrite score_clamped, rawScore_sum. unfold spec_sum.
  rewrite Fl, Fu, Fn, Fs, L.
  assert (E : (length <? 8) = false) by (apply Z.ltb_ge; lia).
  rewrite E.
  pose proof (points_orb_le (useLower options)
    (spec_present CHARACTER_SETS.lowercase (processKeyword length keyword)) 2 ltac:(lia)).
  pose proof (points_orb_le (useUpper options)
    (spec_present CHARACTER_SETS.uppercase (processKeyword length keyword)) 2 ltac:(lia)).
  pose proof (points_orb_le (useNumber options)
    (spec_present CHARACTER_SETS.numbers (processKeyword length keyword)) 2 ltac:(lia)).
  pose proof (points_bounds
    (includes (toLowerCase pw) (toLowerCase keyword))
    (Z.min 3 (strlen keyword)) ltac:(unfold strlen; lia)).
  pose proof (points_bounds (spec_hasRepeatRun_noLT pw) 3 ltac:(lia)).
  pose proof (points_bounds (spec_hasSequentialRun pw) 2 ltac:(lia)).
  assert (0 <= strlen keyword) by (unfold strlen; lia).
  assert (5 <= lengthPoints length <= 20).
  { unfold lengthPoints, points.
    destruct (8 <=? length) eqn:E8; [|apply Z.leb_gt in E8; lia].
    destruct (12 <=? length), (16 <=? length), (20 <=? length); lia. }
  assert (0 <= classPoints options <= 9).
  { unfold classPoints, points. each_setting options; simpl; lia. }
  unfold clamp. unfold lengthPoints, classPoints in *.
  change (points false 10) with 0. lia.
Qed.

Lemma generated_password_score_witness :
  exists password,
    fst (generatePassword 16 (mkOptions true true true false) [] altRand)
    = Return password
    /\ lengthPoints 16 + classPoints (mkOptions true true true false) - 5
       <= score (calculatePasswordStrength password
                   (mkOptions true true true false) [])
       <= 32.
Proof.
  apply (generated_password_score 16 (mkOptions true true true false) []
           altRand);
    [apply altRand_valid | reflexivity | lia].
Defined.

(** ** A keyword the password cannot hold *)

Lemma alnum_members (c : ascii) :
  re_alnum c = true ->
  In c (CHARACTER_SETS.lowercase ++ CHARACTER_SETS.uppercase
        ++ CHARACTER_SETS.numbers).
Proof.
  unfold re_alnum.
  rewrite re_lower_members, re_upper_members, re_digit_members,
    !orb_true_iff, !mem_In, !in_app_iff. tauto.
Qed.

Lemma includes_In (s sub : jsString) (c : ascii) :
  includes s sub = true -> In c sub -> In c s.
Proof.
  intros H Hc. apply includes_spec in H as (pre & post & ->).
  apply in_or_app. right. apply in_or_app. now left.
Qed.

(** When a character of the keyword cannot appear, the scorer does not
    find the keyword in a generated password. *)
Lemma foreign_keyword_not_included (length : Z) (options : Options)
    (keyword rawKeyword : jsString) (g : Rand) (password : jsString)
    (c : ascii) :
  validRand g -> anyEnabled options = true ->
  fst (generatePassword length options keyword g) = Return password ->
  In c rawKeyword -> canAppear options c = false ->
  includes (toLowerCase password) (toLowerCase rawKeyword) = false.
Proof.
  intros Hg He Er Hc Hf. apply not_true_is_false. intros H.
  assert (Hl : In (toLowerCaseChar c) (toLowerCase password)).
  { apply (includes_In _ _ _ H). unfold toLowerCase. now apply in_map. }
  unfold toLowerCase in Hl. apply in_map_iff in Hl as [c' [Ec' Hc']].
  assert (A : canAppear options c = true).
  { unfold canAppear. apply existsb_exists. exists c'. split.
    - apply in_or_app.
      destruct (generated_chars length options keyword g password Hg He Er
                  c' Hc') as [Hp | Hk]; [now left | right].
      pose proof (processKeyword_alnum length keyword) as F.
      rewrite Forall_forall in F. apply alnum_members, F, Hk.
    - rewrite Ec'. apply Ascii.eqb_refl. }
  congruence.
Qed.

Lemma whitespace_cannot_appear (options : Options) (c : ascii) :
  isWhiteSpace c = true -> canAppear options c = false.
Proof.
  intros H.
  assert (G : implb (isWhiteSpace c) (negb (canAppear options c)) = true).
  { clear H. revert c. each_setting options; by_all_ascii. }
  rewrite H in G. simpl in G. now apply negb_true_iff.
Qed.

Lemma score_without_keyword (password : jsString) (options : Options)
    (keyword : jsString) :
  includes (toLowerCase password) (toLowerCase keyword) = false ->
  hasKeyword (analysis (calculatePasswordStrength password options keyword))
  = false
  /\ score (calculatePasswordStrength password options keyword)
     = score (calculatePasswordStrength password options []).
Proof.
  intros H. rewrite analysis_analyse, !score_clamped, (rawScore_keyword password keyword).
  unfold analyse, hasKeyword. rewrite H, andb_false_r.
  split; [reflexivity|]. unfold points. f_equal. lia.
Qed.

(** X10: when the keyword holds a character that no character of the
    pool, no letter and no digit equals once both are lower-cased (a
    symbol when symbols are off, a space, an accented letter), the scorer
    never finds the keyword in the password generated from it:
    [hasKeyword] is false and the score is the score without keyword. *)
Theorem generated_password_foreign_keyword
    (length : Z) (options : Options) (keyword : jsString) (g : Rand)
    (c : ascii) :
  validRand g -> anyEnabled options = true ->
  In c keyword -> canAppear options c = false ->
  exists password,
    fst (generatePassword length options keyword g) = Return password
    /\ hasKeyword (analysis (calculatePasswordStrength password options keyword))
       = false
    /\ score (calculatePasswordStrength password options keyword)
       = score (calculatePasswordStrength password options []).
Proof.
  intros Hg He Hc Hf.
  destruct (generatePassword_returns length options keyword g He) as [pw Er].
  exists pw. split; [exact Er|].
  apply score_without_keyword.
  exact (foreign_keyword_not_included length options keyword keyword g pw c
           Hg He Er Hc Hf).
Qed.

Lemma generated_password_foreign_keyword_witness :
  exists password,
    fst (generatePassword 12 lowerDigit (str "ab!@12cd") altRand)
    = Return password
    /\ hasKeyword (analysis (calculatePasswordStrength password lowerDigit
                               (str "ab!@12cd")))
       = false
    /\ score (calculatePasswordStrength password lowerDigit (str "ab!@12cd"))
       = score (calculatePasswordStrength password lowerDigit []).
Proof.
  apply (generated_password_foreign_keyword 12 lowerDigit (str "ab!@12cd")
           altRand "!"%char);
    [apply altRand_valid | reflexivity | | reflexivity].
  simpl. tauto.
Defined.

(** X11: a keyword with a whitespace character in it, a space between
    two words or one left at its end, is never found in the password
    generated from it, whatever the classes: the generator drops the
    whitespace and the scorer looks for the keyword as typed. *)
Theorem generated_password_whitespace_keyword
    (length : Z) (options : Options) (keyword : jsString) (g : Rand) :
  validRand g -> anyEnabled options = true ->
  existsb isWhiteSpace keyword = true ->
  exists password,
    fst (generatePassword length options keyword g) = Return password
    /\ hasKeyword (analysis (calculatePasswordStrength password options keyword))
       = false
    /\ score (calculatePasswordStrength password options keyword)
       = score (calculatePasswordStrength password options []).
Proof.
  intros Hg He Hw. apply existsb_exists in Hw as [c [Hc Hw]].
  destruct (generatePassword_returns length options keyword g He) as [pw Er].
  exists pw. split; [exact Er|].
  apply score_without_keyword.
  exact (foreign_keyword_not_included length options keyword keyword g pw c
           Hg He Er Hc (whitespace_cannot_appear options c Hw)).
Qed.

Lemma generated_password_whitespace_keyword_witness :
  exists password,
    fst (generatePassword 16 allOn (str "my dog") zeroRand) = Return password
    /\ hasKeyword (analysis (calculatePasswordStrength password allOn
                               (str "my dog")))
       = false
    /\ score (calculatePasswordStrength password allOn (str "my dog"))
       = score (calculatePasswordStrength password allOn []).
Proof.
  apply (generated_password_whitespace_keyword 16 allOn (str "my dog")
           zeroRand);
    [apply zeroRand_valid | reflexivity | reflexivity].
Defined.

(** ** The component *)

Lemma no_option_iff (options : Options) :
  forallb negb (Object_values options) = negb (anyEnabled options).
Proof. each_setting options; reflexivity. Qed.

(** X12: the Generate button is disabled by the options exactly when
    [generatePassword] would throw: while nothing is being generated,
    the button is enabled if and only if the generator returns a
    password, and disabled if and only if it throws. *)
Theorem generate_button_guards_throw
    (length : Z) (options : Options) (keyword : jsString) (g : Rand) :
  (generateDisabled false options = true
   <-> fst (generatePassword length options keyword g)
       = Throw "At least one character type must be selected")
  /\ (generateDisabled false options = false
      <-> exists password,
            fst (generatePassword length options keyword g) = Return password)
  /\ generateDisabled true options = true.
Proof.
  assert (D : generateDisabled false options = negb (anyEnabled options))
    by apply no_option_iff.
  rewrite D. change (generateDisabled true options) with true.
  destruct (anyEnabled options) eqn:He; simpl.
  - destruct (generatePassword_returns length options keyword g He) as [pw Er].
    rewrite Er. repeat split; try discriminate. intros _. now exists pw.
  - rewrite (generatePassword_throws length options keyword g He). simpl.
    repeat split; try discriminate. intros [pw H]. discriminate.
Qed.

(** X13: [handleOptionChange] flips the flag of its key and no other, so
    doing it twice gives the options back; and it disables the Generate
    button exactly when it unchecks the only class that was enabled. *)
Theorem handleOptionChange_toggle (option : OptionKey) (prev : Options) :
  handleOptionChange option (handleOptionChange option prev) = prev
  /\ getOption (handleOptionChange option prev) option
     = negb (getOption prev option)
  /\ (forall key, key <> option ->
        getOption (handleOptionChange option prev) key = getOption prev key)
  /\ (generateDisabled false (handleOptionChange option prev) = true
      <-> prev = handleOptionChange option noneOn).
Proof.
  split; [|split; [|split]].
  - destruct option; each_setting prev; reflexivity.
  - destruct option; reflexivity.
  - intros key H. destruct option, key; try reflexivity; congruence.
  - destruct option; each_setting prev; vm_compute;
      split; intros H; try reflexivity; discriminate H.
Qed.

Lemma color_level (password : jsString) (options : Options)
    (keyword : jsString) :
  color (calculatePasswordStrength password options keyword)
  = snd (strengthLevel
           (score (calculatePasswordStrength password options keyword))).
Proof.
  unfold calculatePasswordStrength.
  destruct (strengthLevel _) as [[s e] c] eqn:E. simpl. now rewrite E.
Qed.

(** X14: the colour of a report always has a class of its own in the
    strength meter, never the grey fallback: red below 10, amber from 10
    below 30, green from 30. *)
Theorem getStrengthColor_of_report
    (password : jsString) (options : Options) (keyword : jsString) :
  getStrengthColor
    (colorText (color (calculatePasswordStrength password options keyword)))
  = (if score (calculatePasswordStrength password options keyword) <? 10
     then "bg-danger-500"%string
     else if score (calculatePasswordStrength password options keyword) <? 30
          then "bg-warning-500"%string
          else "bg-success-500"%string)
  /\ getStrengthColor
       (colorText (color (calculatePasswordStrength password options keyword)))
     <> "bg-gray-500"%string.
Proof.
  rewrite color_level.
  pose proof (score_upper password options keyword) as U. revert U.
  generalize (score (calculatePasswordStrength password options keyword)).
  intros s U. unfold strengthLevel.
  destruct (s <? 10) eqn:E1; [split; [reflexivity | discriminate]|].
  destruct (s <? 20) eqn:E2.
  { assert (E3 : (s <? 30) = true) by (rewrite Z.ltb_lt in *; lia).
    rewrite E3. split; [reflexivity | discriminate]. }
  destruct (s <? 30) eqn:E3; [split; [reflexivity | discriminate]|].
  destruct (s <? 40); split; try reflexivity; discriminate.
Qed.

(** X15: the generator reads the keyword through its letters and digits
    only: two keywords with the same letters and digits in the same order
    give, on the same draws, the same password; and for a length below 3
    every keyword is dropped. *)
Theorem generatePassword_keyword_letters_digits
    (length : Z) (options : Options) (keyword keyword' : jsString) (g : Rand) :
  filter re_alnum keyword = filter re_alnum keyword' ->
  generatePassword length options keyword g
  = generatePassword length options keyword' g
  /\ (length < 3 ->
      generatePassword length options keyword g
      = generatePassword length options [] g).
Proof.
  intros H.
  assert (E : processKeyword length keyword = processKeyword length keyword').
  { rewrite !processKeyword_spec. unfold spec_processedKeyword. now rewrite H. }
  split.
  - unfold generatePassword, assemble. now rewrite E.
  - intros H3.
    assert (E0 : processKeyword length keyword = processKeyword length []).
    { pose proof (processKeyword_length length keyword) as L.
      assert (length / 3 <= 0).
      { pose proof (Z.div_mod length 3). pose proof (Z.mod_pos_bound length 3).
        lia. }
      destruct (processKeyword length keyword); [reflexivity|].
      unfold strlen in L. simpl in L. lia. }
    unfold generatePassword, assemble. now rewrite E0.
Qed.

Lemma generatePassword_keyword_letters_digits_witness :
  generatePassword 12 allOn (str "my-dog") altRand
  = generatePassword 12 allOn (str " my dog") altRand
  /\ (12 < 3 ->
      generatePassword 12 allOn (str "my-dog") altRand
      = generatePassword 12 allOn [] altRand).
Proof.
  apply (generatePassword_keyword_letters_digits 12 allOn
           (str "my-dog") (str " my dog") altRand).
  reflexivity.
Defined.
